(** * typescript-retry-decorator: the retry engine of [retry.decorator.ts]

    A shallow embedding of [createRetryHandler] and of the functions it
    closes over ([retryAsync], [sleepWithAbort], [canRetry],
    [setExponentialBackOffPolicyDefault]), of the two error classes the
    module exports, and of the options object shared between the caller and
    the handler.

    Modelling conventions.
    - A JavaScript [number] is an integer of [Z] (milliseconds, attempt
      counts, multipliers); [Math.pow], [Math.min], [*] and [+] are then the
      operations of [Z], exact as long as every magnitude stays below 2^53.
    - An optional property is an [option]; [None] is [undefined].  For the
      local variable [backOff], [None] also stands for [NaN], the value
      arithmetic on [undefined] produces: both are falsy and both propagate
      through [*] and [Math.min].
    - [await]ed host activity (the wrapped operation, timers, abort events)
      is explicit state passing over a world [W]; one call of the handler is
      sequential, so a run is a function of the world it starts in.  Time
      is the logical time of the host; a timer waits [timer_delay] of the
      delay it is asked for.
    - The options object lives in a heap cell: the caller and the closure
      returned by [createRetryHandler] hold the same reference. *)

From Stdlib Require Import ZArith String List Lia Bool DecimalString.
From stdpp Require Import base option gmap strings.
Import ListNotations.

Local Open Scope string_scope.
Local Open Scope Z_scope.

(** ** Errors *)

(** A class is identified by its name; an error object carries its message
    and the constructors on its prototype chain, most derived first
    ([new SyntaxError(m)] has chain [SyntaxError; Error]). *)
Definition ErrorConstructor := string.

Record JsError := {
  err_message : string;
  err_chain : list ErrorConstructor
}.

(** [e instanceof errorType] *)
Definition instanceof (e : JsError) (errorType : ErrorConstructor) : bool :=
  existsb (String.eqb errorType) (err_chain e).

(** [`${n}`] for an integer-valued number. *)
Definition number_to_string (n : Z) : string :=
  NilZero.string_of_int (Z.to_int n).

(** [class AbortError extends Error]: [code = 'ABORT_ERR'], the constructor
    passes [message] (default ['The operation was aborted']) to [super] and
    sets [name]. *)
Record AbortError := {
  abort_message : string;
  abort_name : string;
  abort_code : string
}.

Definition new_AbortError (message : option string) : AbortError :=
  {| abort_message := default "The operation was aborted" message;
     abort_name := "AbortError";
     abort_code := "ABORT_ERR" |}.

(** [class MaxAttemptsError extends Error]: [code = '429'], the message is
    the template string of the constructor. *)
Record MaxAttemptsError := {
  max_message : string;
  max_code : string;
  retryCount : Z;
  originalError : JsError
}.

Definition new_MaxAttemptsError (original : JsError) (count : Z)
  : MaxAttemptsError :=
  {| max_message :=
       "Max retry reached: " +:+ number_to_string count
         +:+ ", original error: " +:+ err_message original;
     max_code := "429";
     retryCount := count;
     originalError := original |}.

(** What a rejected promise of the handler can carry.  [ThrowTypeError] is
    the engine reading a property of [undefined]. *)
Inductive Thrown :=
| ThrowOriginal (e : JsError)
| ThrowAbort (a : AbortError)
| ThrowMaxAttempts (m : MaxAttemptsError)
| ThrowTypeError.

(** ** Options *)

Inductive BackOffPolicy := FixedBackOffPolicy | ExponentialBackOffPolicy.

Record ExponentialOption := {
  maxInterval : Z;
  multiplier : Z
}.

(** An [AbortSignal] object, by identity; its [aborted] flag is host state. *)
Definition AbortSignal := nat.

(** [interface RetryOptions] *)
Record RetryOptions := {
  maxAttempts : Z;
  backOffPolicy : option BackOffPolicy;
  backOff : option Z;
  doRetry : option (JsError -> bool);
  value : option (list ErrorConstructor);
  exponentialOption : option ExponentialOption;
  reraise : option bool;
  signal : option AbortSignal
}.

(** The object a caller hands over.  JavaScript objects are open: next to
    the properties [RetryOptions] declares, the callers of the test suite
    also set [useJitter] and [jitterType].  The interface does not declare
    them and no statement of [retry.decorator.ts] reads them. *)
Record OptionsObject := {
  props : RetryOptions;
  useJitter : option bool;
  jitterType : option string
}.

Definition policy_is_exponential (p : option BackOffPolicy) : bool :=
  match p with
  | Some ExponentialBackOffPolicy => true
  | _ => false
  end.

(** Truthiness of a number: [undefined], [NaN] and [0] are falsy. *)
Definition truthy_number (n : option Z) : bool :=
  match n with
  | Some x => negb (x =? 0)
  | None => false
  end.

Definition truthy_flag (b : option bool) : bool := default false b.

Definition set_backOff (o : RetryOptions) (b : option Z) : RetryOptions :=
  {| maxAttempts := maxAttempts o;
     backOffPolicy := backOffPolicy o;
     backOff := b;
     doRetry := doRetry o;
     value := value o;
     exponentialOption := exponentialOption o;
     reraise := reraise o;
     signal := signal o |}.

Definition set_exponentialOption (o : RetryOptions)
    (eo : option ExponentialOption) : RetryOptions :=
  {| maxAttempts := maxAttempts o;
     backOffPolicy := backOffPolicy o;
     backOff := backOff o;
     doRetry := doRetry o;
     value := value o;
     exponentialOption := eo;
     reraise := reraise o;
     signal := signal o |}.

Definition set_props (o : OptionsObject) (p : RetryOptions) : OptionsObject :=
  {| props := p; useJitter := useJitter o; jitterType := jitterType o |}.

(** [{ ...{ maxInterval: 2000, multiplier: 2 }, ...opts.exponentialOption }]:
    the declared type of [exponentialOption] has both properties, so a
    supplied object overrides both defaults; spreading [undefined] adds
    nothing. *)
Definition default_exponentialOption : ExponentialOption :=
  {| maxInterval := 2000; multiplier := 2 |}.

Definition spread_exponentialOption (supplied : option ExponentialOption)
  : ExponentialOption :=
  match supplied with
  | Some eo => {| maxInterval := maxInterval eo; multiplier := multiplier eo |}
  | None => default_exponentialOption
  end.

(** [setExponentialBackOffPolicyDefault(opts)], on the object itself:
    [!opts.backOff && (opts.backOff = 1000)], then the assignment of the
    merged [exponentialOption]. *)
Definition setExponentialBackOffPolicyDefault (opts : RetryOptions)
  : RetryOptions :=
  let opts1 :=
    if truthy_number (backOff opts) then opts
    else set_backOff opts (Some 1000) in
  set_exponentialOption opts1
    (Some (spread_exponentialOption (exponentialOption opts1))).

(** ** The heap: the caller's object and the handler's closure *)

Definition loc := positive.

Record RetryHandler := { captured_options : loc }.

Inductive Completion (A : Type) :=
| Normal (a : A)
| Abrupt (t : Thrown).
Arguments Normal {A} a.
Arguments Abrupt {A} t.

(** [createRetryHandler(options)]: defaults are written into the object
    [options] refers to, and the returned [retryAsync] closes over that same
    reference.  A reference to no object is [undefined], whose property
    read throws. *)
Definition createRetryHandler (options : loc) (h : gmap loc OptionsObject)
  : Completion (RetryHandler * gmap loc OptionsObject) :=
  match h !! options with
  | None => Abrupt ThrowTypeError
  | Some o =>
      let h' :=
        if policy_is_exponential (backOffPolicy (props o))
        then <[options := set_props o
                 (setExponentialBackOffPolicyDefault (props o))]> h
        else h in
      Normal ({| captured_options := options |}, h')
  end.

(** The state of the options object once [createRetryHandler] has returned,
    which is what every later call of the handler reads. *)
Definition options_after_construction (o : OptionsObject) : OptionsObject :=
  if policy_is_exponential (backOffPolicy (props o))
  then set_props o (setExponentialBackOffPolicyDefault (props o))
  else o.

(** ** The host *)

(** What the engine cannot see into: the state of abort signals and the
    passing of time.  [aborted s w] is [s.aborted] in world [w];
    [abort_after s w = Some t] says that signal [s] dispatches its [abort]
    event [t] milliseconds after [w] if the engine does nothing but wait;
    [elapse t w] is the world [t] milliseconds later. *)
Class Host (W : Type) := {
  aborted : AbortSignal -> W -> bool;
  abort_after : AbortSignal -> W -> option Z;
  elapse : Z -> W -> W
}.

(** Outcome of one [await fn.apply(context, args)]. *)
Inductive Outcome (V : Type) :=
| Returned (v : V)
| Threw (e : JsError).
Arguments Returned {V} v.
Arguments Threw {V} e.

(** How the promise of [retryAsync] settles; [FulfilledUndefined] is the
    function body running off its end. *)
Inductive Settled (V : Type) :=
| Fulfilled (v : V)
| FulfilledUndefined
| Rejected (t : Thrown).
Arguments Fulfilled {V} v.
Arguments FulfilledUndefined {V}.
Arguments Rejected {V} t.

(** How a wait ends: the timer's [resolve], or [onAbort] after [t] ms. *)
Inductive Wake :=
| TimerFired
| AbortFired (t : Z).

(** What a run does that an observer can count: invocations of the wrapped
    operation and backoff waits, each tagged with the loop index [i]. *)
Inductive Event (V : Type) :=
| Invoked (i : Z) (o : Outcome V)
| Slept (i : Z) (ms : Z) (wake : Wake).
Arguments Invoked {V} i o.
Arguments Slept {V} i ms wake.

Record Run (W V : Type) := {
  settled : Settled V;
  events : list (Event V);
  final : W
}.
Arguments settled {W V} r.
Arguments events {W V} r.
Arguments final {W V} r.

Definition prepend {W V} (evs : list (Event V)) (r : Run W V) : Run W V :=
  {| settled := settled r; events := evs ++ events r; final := final r |}.

Definition is_invocation {V} (ev : Event V) : bool :=
  match ev with
  | Invoked _ _ => true
  | Slept _ _ _ => false
  end.

Fixpoint invocations {V} (evs : list (Event V)) : Z :=
  match evs with
  | [] => 0
  | ev :: evs' =>
      (if is_invocation ev then 1 else 0) + invocations evs'
  end.

(** What [setTimeout(f, ms)] really waits.  The timers of Node.js take a
    delay between 1 and 2^31 - 1 as it is and set any other delay to 1. *)
Definition timer_delay (ms : Z) : Z :=
  if (1 <=? ms) && (ms <=? 2147483647) then ms else 1.

(** How long a wait that asked the timer for [ms] lasted. *)
Definition waited (ms : Z) (wake : Wake) : Z :=
  match wake with
  | TimerFired => timer_delay ms
  | AbortFired t => t
  end.

(** [options.signal?.aborted] *)
Definition signal_aborted `{Host W} (s : option AbortSignal) (w : W) : bool :=
  match s with
  | Some sig => aborted sig w
  | None => false
  end.

Definition abort_error : AbortError :=
  new_AbortError (Some "Retry operation aborted").

(** [sleepWithAbort(ms, signal)]: rejected at once when the signal is already
    aborted; otherwise [setTimeout(resolve, ms)] races the [abort] listener,
    which exists only when there is a signal.  [onAbort] wins when the event
    comes strictly before the timer is due (see [timer_delay]); it clears
    the timer and rejects. *)
Definition sleepWithAbort `{Host W} (ms : Z) (s : option AbortSignal) (w : W)
  : Completion unit * option Wake * W :=
  if signal_aborted s w then (Abrupt (ThrowAbort abort_error), None, w)
  else
    match s with
    | Some sig =>
        match abort_after sig w with
        | Some t =>
            if t <? timer_delay ms
            then (Abrupt (ThrowAbort abort_error),
                  Some (AbortFired t), elapse t w)
            else (Normal tt, Some TimerFired, elapse (timer_delay ms) w)
        | None => (Normal tt, Some TimerFired, elapse (timer_delay ms) w)
        end
    | None => (Normal tt, Some TimerFired, elapse (timer_delay ms) w)
    end.

(** [canRetry(e)] *)
Definition canRetry (options : RetryOptions) (e : JsError) : bool :=
  if match doRetry options with
     | Some p => negb (p e)
     | None => false
     end
  then false
  else if match value options with
          | Some types =>
              negb (length types =? 0)%nat && negb (existsb (instanceof e) types)
          | None => false
          end
  then false
  else true.

(** The assignment to [backOff] at the end of the [catch] block.  Reading
    [options.exponentialOption.multiplier] throws when the property is
    [undefined]. *)
Definition next_backOff (options : RetryOptions) (i : Z) (b : option Z)
  : Completion (option Z) :=
  if policy_is_exponential (backOffPolicy options) then
    match exponentialOption options with
    | None => Abrupt ThrowTypeError
    | Some eo =>
        Normal (match b with
                | Some x => Some (Z.min (x * multiplier eo ^ i) (maxInterval eo))
                | None => None
                end)
    end
  else Normal b.

(** One pass through the loop body either settles the promise or hands the
    next iteration its [backOff] and world. *)
Inductive Step (W V : Type) :=
| Done (r : Run W V)
| Next (evs : list (Event V)) (b : option Z) (w : W).
Arguments Done {W V} r.
Arguments Next {W V} evs b w.

Section Engine.
Context {W V : Type} `{Host W}.
Variable options : RetryOptions.
Variable fn : W -> Outcome V * W.

(** The body of the [for] loop of [retryAsync] at index [i], with the
    local [backOff] equal to [b]. *)
Definition attempt (i : Z) (b : option Z) (w : W) : Step W V :=
  if signal_aborted (signal options) w then
    Done {| settled := Rejected (ThrowAbort abort_error);
            events := []; final := w |}
  else
    match fn w with
    | (Returned v, w1) =>
        Done {| settled := Fulfilled v;
                events := [Invoked i (Returned v)]; final := w1 |}
    | (Threw e, w1) =>
        let call := Invoked i (Threw e) in
        if i =? maxAttempts options then
          if truthy_flag (reraise options) then
            Done {| settled := Rejected (ThrowOriginal e);
                    events := [call]; final := w1 |}
          else
            Done {| settled :=
                      Rejected (ThrowMaxAttempts (new_MaxAttemptsError e i));
                    events := [call]; final := w1 |}
        else if negb (canRetry options e) then
          Done {| settled := Rejected (ThrowOriginal e);
                  events := [call]; final := w1 |}
        else if signal_aborted (signal options) w1 then
          Done {| settled := Rejected (ThrowAbort abort_error);
                  events := [call]; final := w1 |}
        else
          let ms := default 0 b in
          let '(slept, wake, w2) :=
            if truthy_number b
            then sleepWithAbort ms (signal options) w1
            else (Normal tt, None, w1) in
          let waits :=
            match wake with
            | Some k => [Slept i ms k]
            | None => []
            end in
          match slept with
          | Abrupt t =>
              Done {| settled := Rejected t;
                      events := call :: waits; final := w2 |}
          | Normal _ =>
              match next_backOff options i b with
              | Abrupt t =>
                  Done {| settled := Rejected t;
                          events := call :: waits; final := w2 |}
              | Normal b' => Next (call :: waits) b' w2
              end
          end
    end.

(** The [for] loop, from index [i] with [remaining] iterations to go: the
    guard [i < options.maxAttempts + 1] holds exactly when [remaining] is
    not [0] (see [iterations]).  Leaving the loop by its guard ends the
    function body without a [return]. *)
Fixpoint retryLoop (remaining : nat) (i : Z) (b : option Z) (w : W)
  : Run W V :=
  match remaining with
  | O => {| settled := FulfilledUndefined; events := []; final := w |}
  | S remaining' =>
      match attempt i b w with
      | Done r => r
      | Next evs b' w' => prepend evs (retryLoop remaining' (i + 1) b' w')
      end
  end.

(** Number of times the loop guard can hold from index [i] on. *)
Definition iterations (i : Z) : nat :=
  Z.to_nat (maxAttempts options + 1 - i).

(** [retryAsync(fn, context, args)]; [fn] stands for the operation already
    applied to [context] and [args]. *)
Definition retryAsync (w : W) : Run W V :=
  retryLoop (iterations 0) 0 (backOff options) w.

(** How a wait that was not interrupted leaves the iteration: no timer at
    all for a falsy [backOff], the whole delay of the timer otherwise. *)
Definition sleep_completed (i : Z) (b : option Z) (w1 : W)
    (waits : list (Event V)) (w2 : W) : Prop :=
  (truthy_number b = false /\ waits = [] /\ w2 = w1)
  \/ (exists ms, b = Some ms /\ ms <> 0 /\
        waits = [Slept i ms TimerFired] /\
        w2 = elapse (timer_delay ms) w1).

(** The ways through the loop body, one constructor per exit. *)
Inductive attempt_view (i : Z) (b : option Z) (w : W) : Step W V -> Prop :=
| view_aborted :
    signal_aborted (signal options) w = true ->
    attempt_view i b w
      (Done {| settled := Rejected (ThrowAbort abort_error);
               events := []; final := w |})
| view_returned v w1 :
    signal_aborted (signal options) w = false ->
    fn w = (Returned v, w1) ->
    attempt_view i b w
      (Done {| settled := Fulfilled v;
               events := [Invoked i (Returned v)]; final := w1 |})
| view_exhausted e w1 :
    signal_aborted (signal options) w = false ->
    fn w = (Threw e, w1) ->
    i = maxAttempts options ->
    attempt_view i b w
      (Done {| settled :=
                 if truthy_flag (reraise options)
                 then Rejected (ThrowOriginal e)
                 else Rejected (ThrowMaxAttempts (new_MaxAttemptsError e i));
               events := [Invoked i (Threw e)]; final := w1 |})
| view_not_retryable e w1 :
    signal_aborted (signal options) w = false ->
    fn w = (Threw e, w1) ->
    i <> maxAttempts options ->
    canRetry options e = false ->
    attempt_view i b w
      (Done {| settled := Rejected (ThrowOriginal e);
               events := [Invoked i (Threw e)]; final := w1 |})
| view_aborted_before_sleep e w1 :
    signal_aborted (signal options) w = false ->
    fn w = (Threw e, w1) ->
    i <> maxAttempts options ->
    canRetry options e = true ->
    signal_aborted (signal options) w1 = true ->
    attempt_view i b w
      (Done {| settled := Rejected (ThrowAbort abort_error);
               events := [Invoked i (Threw e)]; final := w1 |})
| view_aborted_in_sleep e w1 ms s t :
    signal_aborted (signal options) w = false ->
    fn w = (Threw e, w1) ->
    i <> maxAttempts options ->
    canRetry options e = true ->
    signal_aborted (signal options) w1 = false ->
    b = Some ms -> ms <> 0 ->
    signal options = Some s ->
    abort_after s w1 = Some t -> t < timer_delay ms ->
    attempt_view i b w
      (Done {| settled := Rejected (ThrowAbort abort_error);
               events := [Invoked i (Threw e); Slept i ms (AbortFired t)];
               final := elapse t w1 |})
| view_type_error e w1 waits w2 :
    signal_aborted (signal options) w = false ->
    fn w = (Threw e, w1) ->
    i <> maxAttempts options ->
    canRetry options e = true ->
    signal_aborted (signal options) w1 = false ->
    sleep_completed i b w1 waits w2 ->
    next_backOff options i b = Abrupt ThrowTypeError ->
    attempt_view i b w
      (Done {| settled := Rejected ThrowTypeError;
               events := Invoked i (Threw e) :: waits; final := w2 |})
| view_next e w1 waits w2 b' :
    signal_aborted (signal options) w = false ->
    fn w = (Threw e, w1) ->
    i <> maxAttempts options ->
    canRetry options e = true ->
    signal_aborted (signal options) w1 = false ->
    sleep_completed i b w1 waits w2 ->
    next_backOff options i b = Normal b' ->
    attempt_view i b w (Next (Invoked i (Threw e) :: waits) b' w2).

(** What an iteration that went on to the next one leaves in the trace: a
    call that threw a retryable error before the last index, and possibly a
    wait that ran to its end. *)
Definition retried_event (first next : Z) (ev : Event V) : Prop :=
  match ev with
  | Invoked i (Threw e) =>
      first <= i < next /\ i <> maxAttempts options /\
      canRetry options e = true
  | Invoked _ (Returned _) => False
  | Slept i ms TimerFired => first <= i < next /\ ms <> 0
  | Slept _ _ (AbortFired _) => False
  end.

(** The iterations a run started in [w0] goes through: [reaches w0 i b w pre]
    says the loop comes to the top of iteration [i] in world [w] with the
    local [backOff] equal to [b], having left the events [pre] behind. *)
Inductive reaches (w0 : W) : Z -> option Z -> W -> list (Event V) -> Prop :=
| reaches_start : reaches w0 0 (backOff options) w0 []
| reaches_next i b w pre evs b' w' :
    reaches w0 i b w pre ->
    i < maxAttempts options + 1 ->
    attempt i b w = Next evs b' w' ->
    reaches w0 (i + 1) b' w' (pre ++ evs).
End Engine.

(** A call of the handler [createRetryHandler] returned: [options] is read
    through the captured reference. *)
Definition call_handler {W V} `{Host W} (handler : RetryHandler)
    (h : gmap loc OptionsObject) (fn : W -> Outcome V * W) (w : W)
  : Run W V :=
  match h !! captured_options handler with
  | Some o => retryAsync (props o) fn w
  | None => {| settled := Rejected ThrowTypeError; events := []; final := w |}
  end.

(** [withRetry(options, fn)] followed by one call of the wrapped function. *)
Definition withRetry_call {W V} `{Host W} (options : loc)
    (h : gmap loc OptionsObject) (fn : W -> Outcome V * W) (w : W)
  : Completion (Run W V * gmap loc OptionsObject) :=
  match createRetryHandler options h with
  | Normal (handler, h') => Normal (call_handler handler h' fn w, h')
  | Abrupt t => Abrupt t
  end.

(** ** The scheduler and the classifier as the specification words them *)

(** The delay the loop holds in [backOff] when it reaches index [i]:
    [options.backOff] at index 0, then one [next_backOff] per iteration. *)
Fixpoint nominal_delay (options : RetryOptions) (i : nat) : option Z :=
  match i with
  | O => backOff options
  | S j =>
      match next_backOff options (Z.of_nat j) (nominal_delay options j) with
      | Normal b => b
      | Abrupt _ => None
      end
  end.

(** Specification, section 4.3: [min(baseDelay * multiplier^retryIndex,
    maxInterval)]. *)
Definition exponential_delay_spec (baseDelay : Z) (eo : ExponentialOption)
    (retryIndex : Z) : Z :=
  Z.min (baseDelay * multiplier eo ^ retryIndex) (maxInterval eo).

(** Specification, section 4.2, in its three steps. *)
Definition predicate_forbids (options : RetryOptions) (e : JsError) : Prop :=
  exists p, doRetry options = Some p /\ p e = false.

Definition type_filter_forbids (options : RetryOptions) (e : JsError) : Prop :=
  exists types, value options = Some types /\ types <> [] /\
    forall errorType, In errorType types -> instanceof e errorType = false.

Definition canRetry_spec (options : RetryOptions) (e : JsError) : bool :=
  match doRetry options with
  | Some p => p e
  | None => true
  end
  &&
  match value options with
  | Some (errorType :: types) => existsb (instanceof e) (errorType :: types)
  | Some [] => true
  | None => true
  end.

(** The waits of a run, in order: index, duration asked of the timer, and
    how the wait ended. *)
Fixpoint sleeps {V} (evs : list (Event V)) : list (Z * Z * Wake) :=
  match evs with
  | [] => []
  | Invoked _ _ :: evs' => sleeps evs'
  | Slept i ms wake :: evs' => (i, ms, wake) :: sleeps evs'
  end.

(** The indices of the calls of a run, in order. *)
Fixpoint call_indices {V} (evs : list (Event V)) : list Z :=
  match evs with
  | [] => []
  | Invoked i _ :: evs' => i :: call_indices evs'
  | Slept _ _ _ :: evs' => call_indices evs'
  end.


(** ** A scripted host, as the test suite builds it *)

Module Scenario.

(** A clock, the number of calls made so far, and the instants at which
    [controller.abort()] is (or was) called for each signal. *)
Record World := {
  now : Z;
  calls : nat;
  abort_at : list (AbortSignal * Z)
}.

Fixpoint abort_time (s : AbortSignal) (l : list (AbortSignal * Z))
  : option Z :=
  match l with
  | [] => None
  | (s', t) :: l' => if Nat.eqb s s' then Some t else abort_time s l'
  end.

#[global] Instance host : Host World := {
  aborted s w :=
    match abort_time s (abort_at w) with
    | Some t => t <=? now w
    | None => false
    end;
  abort_after s w :=
    match abort_time s (abort_at w) with
    | Some t => Some (t - now w)
    | None => None
    end;
  elapse t w :=
    {| now := now w + t; calls := calls w; abort_at := abort_at w |}
}.

(** [jest.fn()] with a list of once-only behaviours and a default one. *)
Definition mock {V} (once : list (Outcome V)) (always : Outcome V)
    (w : World) : Outcome V * World :=
  (nth (calls w) once always,
   {| now := now w; calls := S (calls w); abort_at := abort_at w |}).

(** A mock that calls [controller.abort()] during its call number [k]. *)
Definition mock_aborting {V} (k : nat) (s : AbortSignal)
    (once : list (Outcome V)) (always : Outcome V)
    (w : World) : Outcome V * World :=
  (nth (calls w) once always,
   {| now := now w; calls := S (calls w);
      abort_at := if Nat.eqb (S (calls w)) k
                  then (s, now w) :: abort_at w else abort_at w |}).

Definition start : World := {| now := 0; calls := 0; abort_at := [] |}.

(** [setTimeout(() => controller.abort(), t)] before the call. *)
Definition start_aborting (s : AbortSignal) (t : Z) : World :=
  {| now := 0; calls := 0; abort_at := [(s, t)] |}.

Definition Error (message : string) : JsError :=
  {| err_message := message; err_chain := ["Error"] |}.

Definition SyntaxError (message : string) : JsError :=
  {| err_message := message; err_chain := ["SyntaxError"; "Error"] |}.

Definition CustomError (message : string) : JsError :=
  {| err_message := message; err_chain := ["CustomError"; "Error"] |}.

(** [{ maxAttempts: n }] *)
Definition only_maxAttempts (n : Z) : RetryOptions :=
  {| maxAttempts := n; backOffPolicy := None; backOff := None;
     doRetry := None; value := None; exponentialOption := None;
     reraise := None; signal := None |}.

Definition literal (p : RetryOptions) : OptionsObject :=
  {| props := p; useJitter := None; jitterType := None |}.

(** The single options object of a scenario sits at this address. *)
Definition options_ref : loc := 1%positive.

Definition heap_with (o : OptionsObject) : gmap loc OptionsObject :=
  {[ options_ref := o ]}.

(** The object literals of the README and of the test suite. *)
Definition exponential_readme : RetryOptions :=
  {| maxAttempts := 3;
     backOffPolicy := Some ExponentialBackOffPolicy;
     backOff := Some 1000;
     doRetry := None; value := None;
     exponentialOption := Some {| maxInterval := 10000; multiplier := 3 |};
     reraise := None; signal := None |}.

Definition exponential_bare : RetryOptions :=
  {| maxAttempts := 3;
     backOffPolicy := Some ExponentialBackOffPolicy;
     backOff := None;
     doRetry := None; value := None; exponentialOption := None;
     reraise := None; signal := None |}.

Definition full_jitter_test : OptionsObject :=
  {| props :=
       {| maxAttempts := 2; backOffPolicy := None; backOff := Some 1000;
          doRetry := None; value := None; exponentialOption := None;
          reraise := None; signal := None |};
     useJitter := Some true;
     jitterType := Some "full" |}.

Definition with_signal (n : Z) (ms : option Z) (s : AbortSignal)
  : RetryOptions :=
  {| maxAttempts := n; backOffPolicy := None; backOff := ms;
     doRetry := None; value := None; exponentialOption := None;
     reraise := None; signal := Some s |}.

Definition syntax_only (n : Z) : RetryOptions :=
  {| maxAttempts := n; backOffPolicy := None; backOff := None;
     doRetry := None; value := Some ["SyntaxError"; "ReferenceError"];
     exponentialOption := None; reraise := None; signal := None |}.

Definition reraising (n : Z) : RetryOptions :=
  {| maxAttempts := n; backOffPolicy := None; backOff := None;
     doRetry := None; value := None; exponentialOption := None;
     reraise := Some true; signal := None |}.

Definition fixed (n ms : Z) : RetryOptions :=
  {| maxAttempts := n; backOffPolicy := Some FixedBackOffPolicy;
     backOff := Some ms;
     doRetry := None; value := None; exponentialOption := None;
     reraise := None; signal := None |}.


End Scenario.

(** * Properties *)

(** ** The scenarios of the test suite, run on the model *)

Module ScenarioRuns.
Import Scenario.

Example normal_retry :
  let r := retryAsync (only_maxAttempts 2)
             (mock [Threw (Error "rejected")] (Returned "fulfilled")) start in
  settled r = Fulfilled "fulfilled" /\ invocations (events r) = 2.
Proof. vm_compute. split; reflexivity. Qed.

Example exceed_max_retry :
  let r := retryAsync (V := string) (only_maxAttempts 2)
             (mock [] (Threw (Error "rejected"))) start in
  settled r =
    Rejected (ThrowMaxAttempts
      {| max_message := "Max retry reached: 2, original error: rejected";
         max_code := "429"; retryCount := 2;
         originalError := Error "rejected" |})
  /\ invocations (events r) = 3.
Proof. vm_compute. split; reflexivity. Qed.

Example retry_with_specific_error :
  let r := retryAsync (syntax_only 2)
             (mock [Threw (SyntaxError "I failed!")] (Returned "ok")) start in
  settled r = Fulfilled "ok" /\ invocations (events r) = 2.
Proof. vm_compute. split; reflexivity. Qed.

Example retry_with_specific_error_not_match :
  let r := retryAsync (syntax_only 2)
             (mock [Threw (Error "I failed!")] (Returned "ok")) start in
  settled r = Rejected (ThrowOriginal (Error "I failed!"))
  /\ invocations (events r) = 1.
Proof. vm_compute. split; reflexivity. Qed.

Example fix_backOff_policy :
  let r := retryAsync (V := string) (fixed 3 1000)
             (mock [] (Threw (Error "Error: 500"))) start in
  invocations (events r) = 4
  /\ sleeps (events r) =
       [(0, 1000, TimerFired); (1, 1000, TimerFired); (2, 1000, TimerFired)]
  /\ now (final r) = 3000.
Proof. vm_compute. repeat split; reflexivity. Qed.

Example reraise_will_rethrow_original_Error :
  let r := retryAsync (V := string) (reraising 1)
             (mock [] (Threw (CustomError "test-error"))) start in
  settled r = Rejected (ThrowOriginal (CustomError "test-error"))
  /\ invocations (events r) = 2.
Proof. vm_compute. split; reflexivity. Qed.

Example abort_before_first_attempt :
  let r := retryAsync (V := string) (with_signal 3 None 0%nat)
             (mock [] (Threw (Error "Should not be called")))
             (start_aborting 0%nat 0) in
  settled r = Rejected (ThrowAbort abort_error) /\ events r = [].
Proof. vm_compute. split; reflexivity. Qed.

Example abort_after_first_failure :
  let r := retryAsync (V := string) (with_signal 3 (Some 1000) 0%nat)
             (mock_aborting 1 0%nat [] (Threw (Error "First attempt failed")))
             start in
  settled r = Rejected (ThrowAbort abort_error)
  /\ invocations (events r) = 1 /\ sleeps (events r) = [].
Proof. vm_compute. repeat split; reflexivity. Qed.

Example abort_during_backoff_sleep :
  let r := retryAsync (V := string) (with_signal 5 (Some 5000) 0%nat)
             (mock [] (Threw (Error "Failed"))) (start_aborting 0%nat 100) in
  settled r = Rejected (ThrowAbort abort_error)
  /\ invocations (events r) = 1
  /\ sleeps (events r) = [(0, 5000, AbortFired 100)]
  /\ now (final r) = 100.
Proof. vm_compute. repeat split; reflexivity. Qed.

End ScenarioRuns.

(** ** The loop body *)

Section EngineFacts.
Context {W V : Type} `{Host W}.
Variable options : RetryOptions.
Variable fn : W -> Outcome V * W.

Lemma next_backOff_abrupt i b t :
  next_backOff options i b = Abrupt t -> t = ThrowTypeError.
Proof.
  unfold next_backOff.
  destruct (policy_is_exponential _); [|discriminate].
  destruct (exponentialOption options); [discriminate|].
  now intros [= <-].
Qed.

Lemma truthy_number_Some b :
  truthy_number b = true -> exists ms, b = Some ms /\ ms <> 0.
Proof.
  destruct b as [ms|]; simpl; [|discriminate].
  intros Hms. exists ms. split; [reflexivity|].
  intros ->. discriminate.
Qed.

(** Every pass through the body is one of the exits of [attempt_view]. *)
Lemma attempt_viewP i b w :
  attempt_view options fn i b w (attempt options fn i b w).
Proof.
  unfold attempt.
  destruct (signal_aborted (signal options) w) eqn:Hw; [now constructor|].
  destruct (fn w) as [[v|e] w1] eqn:Hfn; [now constructor|].
  destruct (Z.eqb_spec i (maxAttempts options)) as [Hi|Hi].
  { generalize (view_exhausted options fn i b w e w1 Hw Hfn Hi).
    now destruct (truthy_flag (reraise options)). }
  destruct (canRetry options e) eqn:Hcan; cbn [negb];
    [|now apply view_not_retryable].
  destruct (signal_aborted (signal options) w1) eqn:Hw1;
    [now apply view_aborted_before_sleep|].
  destruct (truthy_number b) eqn:Hb.
  - destruct (truthy_number_Some b Hb) as (ms & -> & Hms).
    change (default 0 (Some ms)) with ms.
    unfold sleepWithAbort. rewrite Hw1.
    assert (Hdone : sleep_completed (V := V) i (Some ms) w1
                      [Slept i ms TimerFired] (elapse (timer_delay ms) w1))
      by (right; exists ms; repeat split; assumption).
    assert (Hgo :
      attempt_view options fn i (Some ms) w
        match next_backOff options i (Some ms) with
        | Abrupt t =>
            Done {| settled := Rejected t;
                    events := [Invoked i (Threw e); Slept i ms TimerFired];
                    final := elapse (timer_delay ms) w1 |}
        | Normal b' =>
            Next [Invoked i (Threw e); Slept i ms TimerFired] b'
              (elapse (timer_delay ms) w1)
        end).
    { destruct (next_backOff options i (Some ms)) as [b'|t] eqn:Hnext.
      - now apply view_next with (w1 := w1).
      - pose proof (next_backOff_abrupt _ _ _ Hnext) as ->.
        now apply view_type_error with (w1 := w1). }
    destruct (signal options) as [s|] eqn:Hs; [|exact Hgo].
    destruct (abort_after s w1) as [t|] eqn:Ht; [|exact Hgo].
    destruct (Z.ltb_spec t (timer_delay ms)) as [Hlt|Hge]; [|exact Hgo].
    apply view_aborted_in_sleep with (s := s); rewrite ?Hs; auto.
  - assert (Hdone : sleep_completed (V := V) i b w1 [] w1)
      by (left; repeat split; assumption).
    destruct (next_backOff options i b) as [b'|t] eqn:Hnext.
    + now apply view_next with (w1 := w1).
    + pose proof (next_backOff_abrupt _ _ _ Hnext) as ->.
      now apply view_type_error with (w1 := w1).
Qed.

(** The count [retryLoop] recurses on is the loop guard of the source: the
    guard [i < options.maxAttempts + 1] holds exactly when iterations remain,
    and [i++] uses one of them up. *)
Lemma iterations_guard i :
  (i <? maxAttempts options + 1) = negb (Nat.eqb (iterations options i) 0).
Proof.
  unfold iterations.
  destruct (Z.ltb_spec i (maxAttempts options + 1)) as [Hlt|Hge].
  - replace (Z.to_nat (maxAttempts options + 1 - i))
      with (S (Z.to_nat (maxAttempts options - i))) by lia.
    reflexivity.
  - replace (Z.to_nat (maxAttempts options + 1 - i)) with O by lia.
    reflexivity.
Qed.

Lemma iterations_next i :
  i < maxAttempts options + 1 ->
  iterations options i = S (iterations options (i + 1)).
Proof. unfold iterations. lia. Qed.

Lemma retryLoop_S n i b w :
  retryLoop options fn (S n) i b w =
    match attempt options fn i b w with
    | Done r => r
    | Next evs b' w' => prepend evs (retryLoop options fn n (i + 1) b' w')
    end.
Proof. reflexivity. Qed.

End EngineFacts.

(** ** Counting calls and waits *)

Section Traces.
Context {W V : Type} `{Host W}.

Lemma invocations_nil : invocations (V := V) [] = 0.
Proof. reflexivity. Qed.

Lemma invocations_cons (ev : Event V) (l : list (Event V)) :
  invocations (ev :: l) = (if is_invocation ev then 1 else 0) + invocations l.
Proof. reflexivity. Qed.

Lemma invocations_app (l1 l2 : list (Event V)) :
  invocations (l1 ++ l2) = invocations l1 + invocations l2.
Proof.
  induction l1 as [|ev l1 IH]; [reflexivity|].
  cbn [app]. rewrite !invocations_cons, IH. lia.
Qed.

Lemma invocations_nonneg (l : list (Event V)) : 0 <= invocations l.
Proof.
  induction l as [|ev l IH]; [rewrite invocations_nil; lia|].
  rewrite invocations_cons. destruct (is_invocation ev); lia.
Qed.

(** A pass that goes on made exactly one call and at most one wait. *)
Lemma sleep_completed_invocations i b w1 waits w2 :
  sleep_completed (V := V) i b w1 waits w2 -> invocations waits = 0.
Proof.
  intros [(_ & -> & _) | (ms & _ & _ & -> & _)]; reflexivity.
Qed.

Lemma sleep_completed_no_call i b w1 waits w2 j o :
  sleep_completed (V := V) i b w1 waits w2 -> ~ In (Invoked j o) waits.
Proof.
  intros [(_ & -> & _) | (ms & _ & _ & -> & _)]; cbn; intuition discriminate.
Qed.

Lemma sleep_completed_only_timer i b w1 waits w2 j ms t :
  sleep_completed (V := V) i b w1 waits w2 ->
  ~ In (Slept j ms (AbortFired t)) waits.
Proof.
  intros [(_ & -> & _) | (ms' & _ & _ & -> & _)]; cbn; intuition discriminate.
Qed.

End Traces.

(** Normalises [invocations] of a list built from conses and appends. *)
Ltac count_calls :=
  repeat first [ rewrite @invocations_nil
               | rewrite @invocations_cons
               | rewrite @invocations_app ];
  cbn [is_invocation].

(** ** The attempt budget *)

Section Budget.
Context {W V : Type} `{Host W}.
Variable options : RetryOptions.
Variable fn : W -> Outcome V * W.

(** A loop with [n] iterations to go calls the operation at most [n] times. *)
Lemma retryLoop_invocations_le n i b w :
  invocations (events (retryLoop options fn n i b w)) <= Z.of_nat n.
Proof.
  revert i b w.
  induction n as [|n IH]; intros i b w; [cbn; lia|].
  rewrite retryLoop_S.
  destruct (attempt_viewP options fn i b w)
    as [ | | | | | | ? ? waits ? ? ? ? ? ? Hdone | ? ? waits w2 b' ? ? ? ? ? Hdone ];
    cbn [events prepend]; count_calls; try lia.
  - pose proof (sleep_completed_invocations _ _ _ _ _ Hdone). lia.
  - pose proof (sleep_completed_invocations _ _ _ _ _ Hdone).
    specialize (IH (i + 1) b' w2). lia.
Qed.

(** C1: one call of the handler invokes the wrapped operation at most
    [maxAttempts + 1] times, whatever the operation returns or throws,
    whatever the classifier answers and whenever the signal aborts. *)
Theorem invocations_within_budget (w : W) :
  0 <= maxAttempts options ->
  invocations (events (retryAsync options fn w)) <= maxAttempts options + 1.
Proof.
  intros Hmax. unfold retryAsync.
  pose proof (retryLoop_invocations_le (iterations options 0) 0
                (backOff options) w) as Hle.
  unfold iterations in *. lia.
Qed.

End Budget.

Lemma invocations_within_budget_witness :
  0 <= maxAttempts (Scenario.fixed 3 1000) /\
  invocations
    (events (retryAsync (V := string) (Scenario.fixed 3 1000)
               (Scenario.mock [] (Threw (Scenario.Error "Error: 500")))
               Scenario.start))
    <= maxAttempts (Scenario.fixed 3 1000) + 1.
Proof.
  split; [vm_compute; discriminate|].
  apply (invocations_within_budget (Scenario.fixed 3 1000)).
  vm_compute; discriminate.
Defined.

(** ** How a run ends *)

Section Runs.
Context {W V : Type} `{Host W}.
Variable options : RetryOptions.
Variable fn : W -> Outcome V * W.

Lemma retried_event_weaken first first' next ev :
  first' <= first ->
  retried_event (V := V) options first next ev ->
  retried_event options first' next ev.
Proof.
  intros Hle. destruct ev as [i [v|e] | i ms [|t]]; cbn; intuition lia.
Qed.

(** Every run is a sequence of iterations that went on, followed either by
    one pass through the body that settled the promise, or by the loop guard
    failing. *)
Lemma retryLoop_ends n i0 b0 w0 :
  exists j pre,
    Forall (retried_event options i0 j) pre /\
    invocations pre = j - i0 /\
    ((exists bj wj r,
        j < i0 + Z.of_nat n /\
        attempt_view options fn j bj wj (Done r) /\
        retryLoop options fn n i0 b0 w0 = prepend pre r)
     \/
     (exists wj,
        j = i0 + Z.of_nat n /\
        retryLoop options fn n i0 b0 w0 =
          {| settled := FulfilledUndefined; events := pre; final := wj |})).
Proof.
  revert i0 b0 w0.
  induction n as [|n IH]; intros i0 b0 w0.
  { exists i0, []. repeat split; [constructor | cbn; lia |].
    right. exists w0. split; [lia | reflexivity]. }
  rewrite retryLoop_S.
  pose proof (attempt_viewP options fn i0 b0 w0) as Hview.
  destruct (attempt options fn i0 b0 w0) as [r | evs b' w'] eqn:Hat.
  { exists i0, []. repeat split; [constructor | cbn; lia |].
    left. exists b0, w0, r. repeat split; [lia | exact Hview |].
    now destruct r. }
  inversion Hview as [ | | | | | | | e w1 waits w2 b'' Hw Hfn Hi Hcan Hw1 Hdone Hnext ];
    subst.
  destruct (IH (i0 + 1) b' w') as (j & pre & Hpre & Hcount & Hend).
  assert (Hj : i0 + 1 <= j).
  { pose proof (invocations_nonneg pre). lia. }
  exists j, ((Invoked i0 (Threw e) :: waits) ++ pre)%list.
  split; [|split].
  - apply Forall_app. split.
    + constructor; [cbn; repeat split; auto; lia|].
      destruct Hdone as [(_ & -> & _) | (ms & _ & Hms & -> & _)];
        repeat constructor; auto; lia.
    + eapply Forall_impl; [exact Hpre|].
      intros ev. apply retried_event_weaken. lia.
  - count_calls.
    pose proof (sleep_completed_invocations _ _ _ _ _ Hdone). lia.
  - destruct Hend as [(bj & wj & r & Hlt & Hv & Heq) | (wj & Hjn & Heq)].
    + left. exists bj, wj, r. repeat split; [lia | exact Hv |].
      rewrite Heq. unfold prepend; cbn [settled events final].
      now rewrite app_assoc.
    + right. exists wj. split; [lia|].
      rewrite Heq. reflexivity.
Qed.

End Runs.

(** Splits a hypothesis [In x l], for a list [l] of conses and appends, into
    its cases and drops those that identify distinct constructors. *)
Ltac split_In HIn :=
  repeat first
    [ apply in_app_or in HIn
    | progress cbn [In events prepend] in HIn
    | destruct HIn as [HIn | HIn] ];
  try contradiction; try discriminate HIn.

(** An event of the part of the trace before the settling iteration. *)
Ltac in_prefix Hpre HIn :=
  rewrite List.Forall_forall in Hpre;
  specialize (Hpre _ HIn); cbn [retried_event] in Hpre.

(** ** Exhaustion and classification *)

Section Failures.
Context {W V : Type} `{Host W}.
Variable options : RetryOptions.
Variable fn : W -> Outcome V * W.

(** C2: when the attempt of index [maxAttempts] fails with [e], that attempt
    is the last thing the run does and the promise is rejected with [e]
    itself under [reraise], and otherwise with a [MaxAttemptsError] whose
    [originalError] is [e] and whose [retryCount] is [maxAttempts]; the
    classifier is not asked, so this holds for errors it would reject too. *)
Theorem exhaustion_precedes_classification (w : W) (e : JsError) :
  let r := retryAsync options fn w in
  In (Invoked (maxAttempts options) (Threw e)) (events r) ->
  (exists pre,
     events r = (pre ++ [Invoked (maxAttempts options) (Threw e)])%list)
  /\ (truthy_flag (reraise options) = true ->
      settled r = Rejected (ThrowOriginal e))
  /\ (truthy_flag (reraise options) = false ->
      exists m, settled r = Rejected (ThrowMaxAttempts m) /\
                originalError m = e /\ retryCount m = maxAttempts options).
Proof.
  intros r HIn. subst r. unfold retryAsync in *.
  destruct (retryLoop_ends options fn (iterations options 0) 0
              (backOff options) w)
    as (j & pre & Hpre & _ & [(bj & wj & r & _ & Hv & Heq) | (wj & _ & Heq)]);
    rewrite Heq in *; clear Heq.
  - split_In HIn; [in_prefix Hpre HIn; lia|].
    inversion Hv as
      [ | | e' ? ? ? Hj | e' ? ? ? Hj | e' ? ? ? Hj | e' ? ? ? ? ? ? Hj
      | e' ? waits ? ? ? Hj ? ? Hdone | ]; subst r;
      split_In HIn; try congruence.
    + injection HIn as Hj' He. subst e'. rewrite Hj in *.
      cbn [prepend events settled].
      split; [now exists pre|].
      split; intros ->; [reflexivity|].
      now exists (new_MaxAttemptsError e (maxAttempts options)).
    + now apply (sleep_completed_no_call _ _ _ _ _ _ _ Hdone) in HIn.
  - cbn [events] in HIn. in_prefix Hpre HIn. lia.
Qed.

(** C5: when an attempt before the last index fails with an error the
    classifier rejects, the run ends there: the promise is rejected with that
    very error, [reraise] or not, the failed call is the last event of the
    run (no wait follows it, no further call), it is call number [i + 1],
    and no wait carries its index. *)
Theorem not_retryable_fails_at_once (w : W) (i : Z) (e : JsError) :
  let r := retryAsync options fn w in
  In (Invoked i (Threw e)) (events r) ->
  i < maxAttempts options ->
  canRetry options e = false ->
  settled r = Rejected (ThrowOriginal e)
  /\ (exists pre, events r = (pre ++ [Invoked i (Threw e)])%list)
  /\ invocations (events r) = i + 1
  /\ (forall ms wake, ~ In (Slept i ms wake) (events r)).
Proof.
  intros r HIn Hi Hcan. subst r. unfold retryAsync in *.
  destruct (retryLoop_ends options fn (iterations options 0) 0
              (backOff options) w)
    as (j & pre & Hpre & Hcount &
        [(bj & wj & r & _ & Hv & Heq) | (wj & _ & Heq)]);
    rewrite Heq in *; clear Heq.
  - split_In HIn; [in_prefix Hpre HIn; intuition congruence|].
    inversion Hv as
      [ | | e' ? ? ? Hj | e' ? ? ? Hj Hcan' | e' ? ? ? Hj Hcan'
      | e' ? ? ? ? ? ? Hj Hcan' | e' ? waits ? ? ? Hj Hcan' ? Hdone | ];
      subst r; split_In HIn; try (injection HIn as ? ?; subst; try lia);
      try congruence.
    + cbn [prepend events settled].
      split; [reflexivity|]. split; [now exists pre|].
      split; [count_calls; lia|].
      intros ms wake HS. split_In HS.
      in_prefix Hpre HS. destruct wake; [lia | contradiction].
    + now apply (sleep_completed_no_call _ _ _ _ _ _ _ Hdone) in HIn.
  - cbn [events] in HIn. in_prefix Hpre HIn. intuition congruence.
Qed.

End Failures.

Lemma exhaustion_precedes_classification_witness :
  canRetry (Scenario.syntax_only 1) (Scenario.Error "again") = false
  /\ In (Invoked (V := string) (maxAttempts (Scenario.syntax_only 1))
           (Threw (Scenario.Error "again")))
        (events
           (retryAsync (Scenario.syntax_only 1)
              (Scenario.mock [Threw (Scenario.SyntaxError "I failed!")]
                 (Threw (Scenario.Error "again")))
              Scenario.start))
  /\ exists m,
       settled
         (retryAsync (V := string) (Scenario.syntax_only 1)
            (Scenario.mock [Threw (Scenario.SyntaxError "I failed!")]
               (Threw (Scenario.Error "again")))
            Scenario.start)
       = Rejected (ThrowMaxAttempts m)
       /\ originalError m = Scenario.Error "again"
       /\ retryCount m = maxAttempts (Scenario.syntax_only 1).
Proof.
  split; [reflexivity|].
  split; [vm_compute; auto|].
  apply (exhaustion_precedes_classification (Scenario.syntax_only 1)
           (Scenario.mock [Threw (Scenario.SyntaxError "I failed!")]
              (Threw (Scenario.Error "again")))
           Scenario.start (Scenario.Error "again")).
  - vm_compute; auto.
  - reflexivity.
Defined.

Lemma not_retryable_fails_at_once_witness :
  In (Invoked (V := string) 0 (Threw (Scenario.Error "I failed!")))
     (events
        (retryAsync (Scenario.syntax_only 2)
           (Scenario.mock [Threw (Scenario.Error "I failed!")]
              (Returned "ok"))
           Scenario.start))
  /\ 0 < maxAttempts (Scenario.syntax_only 2)
  /\ canRetry (Scenario.syntax_only 2) (Scenario.Error "I failed!") = false
  /\ settled
       (retryAsync (Scenario.syntax_only 2)
          (Scenario.mock [Threw (Scenario.Error "I failed!")]
             (Returned "ok"))
          Scenario.start)
     = Rejected (ThrowOriginal (Scenario.Error "I failed!")).
Proof.
  split; [vm_compute; auto|].
  split; [reflexivity|].
  split; [reflexivity|].
  apply (not_retryable_fails_at_once (Scenario.syntax_only 2)
           (Scenario.mock [Threw (Scenario.Error "I failed!")]
              (Returned "ok"))
           Scenario.start 0 (Scenario.Error "I failed!")).
  - vm_compute; auto.
  - reflexivity.
  - reflexivity.
Defined.

(** ** Cancellation *)

Section Cancellation.
Context {W V : Type} `{Host W}.
Variable options : RetryOptions.
Variable fn : W -> Outcome V * W.

Lemma prepend_nil (r : Run W V) : prepend [] r = r.
Proof. now destruct r. Qed.

Lemma prepend_prepend (l1 l2 : list (Event V)) (r : Run W V) :
  prepend l1 (prepend l2 r) = prepend (l1 ++ l2) r.
Proof. unfold prepend; cbn [settled events final]. now rewrite app_assoc. Qed.

(** A run is what it has left behind when it reaches an iteration, followed
    by the loop from that iteration on. *)
Lemma reaches_run (w0 : W) i b w pre :
  reaches options fn w0 i b w pre ->
  retryAsync options fn w0
  = prepend pre (retryLoop options fn (iterations options i) i b w).
Proof.
  induction 1 as [|i b w pre evs b' w' _ IH Hguard Hnext].
  - now rewrite prepend_nil.
  - rewrite IH, (iterations_next options i Hguard), retryLoop_S, Hnext.
    apply prepend_prepend.
Qed.

Lemma timer_delay_le (ms : Z) : 1 <= ms -> timer_delay ms <= ms.
Proof.
  intros Hms. unfold timer_delay.
  destruct (1 <=? ms); cbn [andb]; [|lia].
  destruct (ms <=? 2147483647); lia.
Qed.

(** The pass through the loop body in which the [abort] event interrupts the
    wait. *)
Lemma attempt_interrupted i ms w e w1 s t :
  i <> maxAttempts options ->
  signal options = Some s ->
  aborted s w = false ->
  fn w = (Threw e, w1) ->
  canRetry options e = true ->
  aborted s w1 = false ->
  ms <> 0 ->
  abort_after s w1 = Some t ->
  t < timer_delay ms ->
  attempt options fn i (Some ms) w =
    Done {| settled := Rejected (ThrowAbort abort_error);
            events := [Invoked i (Threw e); Slept i ms (AbortFired t)];
            final := elapse t w1 |}.
Proof.
  intros Hi Hs Hw Hfn Hcan Hw1 Hms Hafter Hlt.
  unfold attempt, sleepWithAbort. rewrite Hs. cbn [signal_aborted].
  rewrite Hw, Hfn, Hcan, Hw1. cbn [negb truthy_number].
  destruct (Z.eqb_spec i (maxAttempts options)) as [|_]; [contradiction|].
  destruct (Z.eqb_spec ms 0) as [|_]; [contradiction|]. cbn [negb].
  change (default 0 (Some ms)) with ms. rewrite Hafter.
  destruct (Z.ltb_spec t (timer_delay ms)); [reflexivity | lia].
Qed.

(** C6: with the signal already aborted when the handler is called, the
    promise is rejected with the [AbortError] and the operation is never
    called.  When the [abort] event comes while a run is in one of its
    waits, that is before the timer of the wait is due, the wait ends at
    that instant: the run has lasted only up to the event, the interrupted
    wait is its last event, shorter than the same wait left alone, and the
    promise is rejected with the [AbortError].  A wait that the trace
    records as interrupted always ends the run that way, and
    [sleepWithAbort] itself answers an [abort] event that precedes its
    timer by rejecting at that instant. *)
Theorem cancellation_yields_AbortError (w : W) :
  0 <= maxAttempts options ->
  let r := retryAsync options fn w in
  (signal_aborted (signal options) w = true ->
     settled r = Rejected (ThrowAbort abort_error)
     /\ events r = [] /\ invocations (events r) = 0)
  /\ (forall i ms w' pre s e w1 t,
        reaches options fn w i (Some ms) w' pre ->
        i < maxAttempts options ->
        signal options = Some s ->
        aborted s w' = false ->
        fn w' = (Threw e, w1) ->
        canRetry options e = true ->
        aborted s w1 = false ->
        ms <> 0 ->
        abort_after s w1 = Some t ->
        t < timer_delay ms ->
        r = {| settled := Rejected (ThrowAbort abort_error);
               events :=
                 (pre ++ [Invoked i (Threw e); Slept i ms (AbortFired t)])%list;
               final := elapse t w1 |}
        /\ waited ms (AbortFired t) < waited ms TimerFired)
  /\ (forall i ms t,
        In (Slept i ms (AbortFired t)) (events r) ->
        settled r = Rejected (ThrowAbort abort_error)
        /\ waited ms (AbortFired t) < waited ms TimerFired
        /\ (1 <= ms -> waited ms (AbortFired t) < ms)
        /\ exists pre, events r = (pre ++ [Slept i ms (AbortFired t)])%list)
  /\ (forall s ms t w1,
        aborted s w1 = false -> abort_after s w1 = Some t ->
        t < timer_delay ms ->
        sleepWithAbort ms (Some s) w1 =
          (Abrupt (ThrowAbort abort_error), Some (AbortFired t),
           elapse t w1)).
Proof.
  intros Hmax r. subst r. split; [|split; [|split]].
  - intros Hab. unfold retryAsync, iterations.
    replace (Z.to_nat (maxAttempts options + 1 - 0))
      with (S (Z.to_nat (maxAttempts options))) by lia.
    rewrite retryLoop_S. unfold attempt. rewrite Hab.
    cbn [settled events]. repeat split; reflexivity.
  - intros i ms w' pre s e w1 t Hreach Hi Hs Hw Hfn Hcan Hw1 Hms Hafter Hlt.
    split; [|exact Hlt].
    rewrite (reaches_run w i (Some ms) w' pre Hreach).
    rewrite (iterations_next options i) by lia.
    rewrite retryLoop_S.
    rewrite (attempt_interrupted i ms w' e w1 s t) by (try assumption; lia).
    reflexivity.
  - intros i ms t HIn. unfold retryAsync in *.
    destruct (retryLoop_ends options fn (iterations options 0) 0
                (backOff options) w)
      as (j & pre & Hpre & _ &
          [(bj & wj & r & _ & Hv & Heq) | (wj & _ & Heq)]);
      rewrite Heq in *; clear Heq.
    + split_In HIn; [in_prefix Hpre HIn; contradiction|].
      inversion Hv as
        [ | | | | | ? ? ms' ? t' ? ? ? ? ? ? ? ? ? Hlt
        | ? ? waits ? ? ? ? ? ? Hdone | ];
        subst r; split_In HIn.
      * injection HIn as -> -> ->.
        cbn [prepend events settled waited].
        split; [reflexivity|]. split; [exact Hlt|].
        split; [intros Hpos; pose proof (timer_delay_le ms Hpos); lia|].
        exists (pre ++ [Invoked i (Threw e)])%list.
        now rewrite <- app_assoc.
      * now apply (sleep_completed_only_timer _ _ _ _ _ _ _ _ Hdone) in HIn.
    + cbn [events] in HIn. in_prefix Hpre HIn. contradiction.
  - intros s ms t w1 Hab Hafter Hlt.
    unfold sleepWithAbort. cbn [signal_aborted]. rewrite Hab, Hafter.
    now destruct (Z.ltb_spec t (timer_delay ms)); [|lia].
Qed.

End Cancellation.

Lemma cancellation_yields_AbortError_witness :
  0 <= maxAttempts (Scenario.with_signal 5 (Some 5000) 0%nat)
  /\ retryAsync (V := string) (Scenario.with_signal 5 (Some 5000) 0%nat)
       (Scenario.mock [] (Threw (Scenario.Error "Failed")))
       (Scenario.start_aborting 0%nat 100)
     = {| settled := Rejected (ThrowAbort abort_error);
          events := [Invoked 0 (Threw (Scenario.Error "Failed"));
                     Slept 0 5000 (AbortFired 100)];
          final := {| Scenario.now := 100; Scenario.calls := 1;
                      Scenario.abort_at := [(0%nat, 100)] |} |}
  /\ retryAsync (V := string) (Scenario.with_signal 5 (Some 1000) 0%nat)
       (Scenario.mock [] (Threw (Scenario.Error "Failed")))
       (Scenario.start_aborting 0%nat 1500)
     = {| settled := Rejected (ThrowAbort abort_error);
          events := [Invoked 0 (Threw (Scenario.Error "Failed"));
                     Slept 0 1000 TimerFired;
                     Invoked 1 (Threw (Scenario.Error "Failed"));
                     Slept 1 1000 (AbortFired 500)];
          final := {| Scenario.now := 1500; Scenario.calls := 2;
                      Scenario.abort_at := [(0%nat, 1500)] |} |}
  /\ waited 5000 (AbortFired 100) < waited 5000 TimerFired
  /\ invocations
       (events
          (retryAsync (V := string)
             (Scenario.with_signal 5 (Some 5000) 0%nat)
             (Scenario.mock [] (Threw (Scenario.Error "Failed")))
             (Scenario.start_aborting 0%nat 0)))
     = 0.
Proof.
  assert (Hmax : 0 <= maxAttempts (Scenario.with_signal 5 (Some 5000) 0%nat))
    by (vm_compute; discriminate).
  split; [exact Hmax|].
  destruct (cancellation_yields_AbortError
              (Scenario.with_signal 5 (Some 5000) 0%nat)
              (Scenario.mock (V := string) [] (Threw (Scenario.Error "Failed")))
              (Scenario.start_aborting 0%nat 100) Hmax)
    as (_ & Hwait & _).
  destruct (Hwait 0 5000 (Scenario.start_aborting 0%nat 100) [] 0%nat
              (Scenario.Error "Failed")
              {| Scenario.now := 0; Scenario.calls := 1;
                 Scenario.abort_at := [(0%nat, 100)] |} 100)
    as (Hrun & Hearly);
    try reflexivity; try (vm_compute; discriminate).
  { apply (reaches_start (V := string)
             (Scenario.with_signal 5 (Some 5000) 0%nat)). }
  split; [exact Hrun|].
  destruct (cancellation_yields_AbortError
              (Scenario.with_signal 5 (Some 1000) 0%nat)
              (Scenario.mock (V := string) [] (Threw (Scenario.Error "Failed")))
              (Scenario.start_aborting 0%nat 1500) Hmax)
    as (_ & Hwait' & _).
  destruct (Hwait' 1 1000
              {| Scenario.now := 1000; Scenario.calls := 1;
                 Scenario.abort_at := [(0%nat, 1500)] |}
              [Invoked 0 (Threw (Scenario.Error "Failed"));
               Slept 0 1000 TimerFired]
              0%nat (Scenario.Error "Failed")
              {| Scenario.now := 1000; Scenario.calls := 2;
                 Scenario.abort_at := [(0%nat, 1500)] |} 500)
    as (Hrun' & _);
    try reflexivity; try (vm_compute; discriminate).
  { apply (reaches_next (V := string)
             (Scenario.with_signal 5 (Some 1000) 0%nat)
             (Scenario.mock [] (Threw (Scenario.Error "Failed")))
             (Scenario.start_aborting 0%nat 1500)
             0 (Some 1000) (Scenario.start_aborting 0%nat 1500) []
             [Invoked 0 (Threw (Scenario.Error "Failed"));
              Slept 0 1000 TimerFired]);
      [apply reaches_start | vm_compute; reflexivity | reflexivity]. }
  split; [exact Hrun'|]. split; [exact Hearly|].
  destruct (cancellation_yields_AbortError
              (Scenario.with_signal 5 (Some 5000) 0%nat)
              (Scenario.mock (V := string) [] (Threw (Scenario.Error "Failed")))
              (Scenario.start_aborting 0%nat 0) Hmax)
    as (Hstart & _).
  destruct Hstart as (_ & _ & Hzero); [reflexivity | exact Hzero].
Defined.

(** ** The two error classes *)

Section Errors.
Context {W V : Type} `{Host W}.
Variable options : RetryOptions.
Variable fn : W -> Outcome V * W.

(** C10: an [AbortError] that rejects the promise has the message
    ['Retry operation aborted'], the name ['AbortError'] and the code
    ['ABORT_ERR']; a [MaxAttemptsError] that rejects it has code ['429'],
    holds in [originalError] the error of the last call of the run, holds in
    [retryCount] the index of that call, which is [maxAttempts], and has the
    message of the constructor's template. *)
Theorem engine_errors_shape (w : W) :
  let r := retryAsync options fn w in
  (forall a,
     settled r = Rejected (ThrowAbort a) ->
     abort_message a = "Retry operation aborted"
     /\ abort_name a = "AbortError"
     /\ abort_code a = "ABORT_ERR")
  /\ (forall m,
        settled r = Rejected (ThrowMaxAttempts m) ->
        max_code m = "429"
        /\ (exists pre,
              events r =
                (pre ++ [Invoked (retryCount m) (Threw (originalError m))])%list)
        /\ retryCount m = maxAttempts options
        /\ max_message m =
             "Max retry reached: " +:+ number_to_string (retryCount m)
               +:+ ", original error: " +:+ err_message (originalError m)).
Proof.
  intros r. subst r. unfold retryAsync.
  destruct (retryLoop_ends options fn (iterations options 0) 0
              (backOff options) w)
    as (j & pre & Hpre & _ &
        [(bj & wj & r & _ & Hv & Heq) | (wj & _ & Heq)]);
    rewrite Heq; clear Heq; cbn [prepend settled events];
    [|split; intros ? [=]].
  inversion Hv as [ | | e ? ? ? Hj | | | | | ]; subst r; cbn [settled events];
    (split; [intros a Ha | intros m Hm]);
    try discriminate;
    try (injection Ha as <-; repeat split; reflexivity).
  - destruct (truthy_flag (reraise options)); discriminate.
  - destruct (truthy_flag (reraise options)); [discriminate|].
    injection Hm as <-. cbn [new_MaxAttemptsError max_code retryCount
                              originalError max_message].
    repeat split; [now exists pre | exact Hj].
Qed.

End Errors.

(** ** The classifier *)

Lemma predicate_forbids_iff (options : RetryOptions) (e : JsError) :
  predicate_forbids options e <->
  match doRetry options with
  | Some p => p e = false
  | None => False
  end.
Proof.
  unfold predicate_forbids. split.
  - intros (p & -> & Hp). exact Hp.
  - destruct (doRetry options) as [p|]; [|contradiction].
    intros Hp. now exists p.
Qed.

Lemma type_filter_forbids_iff (options : RetryOptions) (e : JsError) :
  type_filter_forbids options e <->
  match value options with
  | Some (c :: types) => existsb (instanceof e) (c :: types) = false
  | _ => False
  end.
Proof.
  unfold type_filter_forbids. split.
  - intros (types & -> & Hne & Hall).
    destruct types as [|c types]; [congruence|].
    destruct (existsb (instanceof e) (c :: types)) eqn:Hex; [|reflexivity].
    apply existsb_exists in Hex as (c' & Hin & Hc').
    rewrite (Hall c' Hin) in Hc'. discriminate.
  - destruct (value options) as [[|c types]|]; try contradiction.
    intros Hex. exists (c :: types). repeat split; [discriminate|].
    intros c' Hin.
    destruct (instanceof e c') eqn:Hc'; [|reflexivity].
    assert (existsb (instanceof e) (c :: types) = true)
      by (apply existsb_exists; now exists c').
    congruence.
Qed.

(** C4: [canRetry] answers in this order: a configured [doRetry] that
    returns false forbids the retry, whatever [value] holds; otherwise a
    non-empty [value] none of whose classes the error is an instance of
    forbids it; otherwise the retry is allowed, in particular whenever
    [value] is absent or empty and [doRetry] does not reject. *)
Theorem canRetry_tie_break (options : RetryOptions) (e : JsError) :
  (predicate_forbids options e -> canRetry options e = false)
  /\ (~ predicate_forbids options e -> type_filter_forbids options e ->
      canRetry options e = false)
  /\ (~ predicate_forbids options e -> ~ type_filter_forbids options e ->
      canRetry options e = true)
  /\ (~ predicate_forbids options e ->
      value options = None \/ value options = Some [] ->
      canRetry options e = true)
  /\ canRetry options e = canRetry_spec options e.
Proof.
  rewrite predicate_forbids_iff, type_filter_forbids_iff.
  unfold canRetry, canRetry_spec.
  destruct (doRetry options) as [p|]; [destruct (p e)|];
    destruct (value options) as [[|c types]|];
    try destruct (existsb (instanceof e) (c :: types));
    cbn [length Nat.eqb negb andb];
    repeat split; intros; try reflexivity; try congruence; try tauto;
    intuition congruence.
Qed.

(** ** Construction and the shared options object *)

Section Construction.
Context {W V : Type} `{Host W}.

Lemma createRetryHandler_allocated (l : loc) (h : gmap loc OptionsObject)
    (o : OptionsObject) :
  h !! l = Some o ->
  exists h',
    createRetryHandler l h = Normal ({| captured_options := l |}, h')
    /\ h' !! l = Some (options_after_construction o)
    /\ (forall l', l' <> l -> h' !! l' = h !! l').
Proof.
  intros Hl. unfold createRetryHandler, options_after_construction.
  rewrite Hl.
  destruct (policy_is_exponential (backOffPolicy (props o))).
  - eexists. split; [reflexivity|]. split.
    + apply lookup_insert_eq.
    + intros l' Hne. now apply lookup_insert_ne.
  - exists h. repeat split; assumption.
Qed.

(** A call through the handler runs [retryAsync] on the object as
    construction left it. *)
Lemma withRetry_call_allocated (l : loc) (h : gmap loc OptionsObject)
    (o : OptionsObject) (fn : W -> Outcome V * W) (w : W) :
  h !! l = Some o ->
  exists h',
    withRetry_call l h fn w =
      Normal (retryAsync (props (options_after_construction o)) fn w, h')
    /\ h' !! l = Some (options_after_construction o).
Proof.
  intros Hl.
  destruct (createRetryHandler_allocated l h o Hl) as (h' & Hc & Hl' & _).
  exists h'. unfold withRetry_call, call_handler.
  rewrite Hc. cbn [captured_options]. rewrite Hl'. now split.
Qed.

Lemma maxAttempts_after_construction (o : OptionsObject) :
  maxAttempts (props (options_after_construction o)) = maxAttempts (props o).
Proof.
  unfold options_after_construction, setExponentialBackOffPolicyDefault.
  destruct (policy_is_exponential _); [|reflexivity].
  now destruct (truthy_number _).
Qed.


End Construction.

Lemma spread_exponentialOption_Some (eo : ExponentialOption) :
  spread_exponentialOption (Some eo) = eo.
Proof. now destruct eo. Qed.

(** Defaults are written once: the object construction left is a fixed point
    of construction. *)
Lemma options_after_construction_idem (o : OptionsObject) :
  options_after_construction (options_after_construction o)
  = options_after_construction o.
Proof.
  unfold options_after_construction.
  destruct (policy_is_exponential (backOffPolicy (props o))) eqn:Hpolicy;
    [|now rewrite Hpolicy].
  destruct o as [p uj jt]. cbn [props] in *.
  unfold setExponentialBackOffPolicyDefault, set_props.
  cbn [props useJitter jitterType].
  destruct (truthy_number (backOff p)) eqn:Hb;
    cbn [set_exponentialOption set_backOff backOffPolicy backOff
         exponentialOption maxAttempts doRetry value reraise signal];
    rewrite Hpolicy; cbn [truthy_number Z.eqb negb]; rewrite ?Hb;
    cbn [set_exponentialOption set_backOff backOffPolicy backOff
         exponentialOption maxAttempts doRetry value reraise signal];
    now rewrite spread_exponentialOption_Some.
Qed.

(** C8, as the code has it: [createRetryHandler] writes into the object the
    caller passed.  Under the exponential policy [backOff] becomes 1000 when
    it was falsy and [exponentialOption] becomes the caller's object, or
    [{maxInterval: 2000, multiplier: 2}] when there was none; every other
    property of that object, every property under another policy, and every
    other object of the heap keep their values, and building a handler
    from the same object again changes nothing further. *)
Theorem createRetryHandler_writes_defaults (l : loc)
    (h : gmap loc OptionsObject) (o : OptionsObject) :
  h !! l = Some o ->
  exists handler h' o',
    createRetryHandler l h = Normal (handler, h')
    /\ captured_options handler = l
    /\ h' !! l = Some o'
    /\ (forall l', l' <> l -> h' !! l' = h !! l')
    /\ (maxAttempts (props o') = maxAttempts (props o)
        /\ backOffPolicy (props o') = backOffPolicy (props o)
        /\ doRetry (props o') = doRetry (props o)
        /\ value (props o') = value (props o)
        /\ reraise (props o') = reraise (props o)
        /\ signal (props o') = signal (props o)
        /\ useJitter o' = useJitter o
        /\ jitterType o' = jitterType o)
    /\ (backOffPolicy (props o) <> Some ExponentialBackOffPolicy -> h' = h)
    /\ (backOffPolicy (props o) = Some ExponentialBackOffPolicy ->
        backOff (props o') =
          (if truthy_number (backOff (props o))
           then backOff (props o) else Some 1000)
        /\ exponentialOption (props o') =
             Some (match exponentialOption (props o) with
                   | Some eo => eo
                   | None => {| maxInterval := 2000; multiplier := 2 |}
                   end))
    /\ createRetryHandler l h' = Normal (handler, h').
Proof.
  intros Hl.
  destruct (createRetryHandler_allocated l h o Hl) as (h' & Hc & Hl' & Hframe).
  exists {| captured_options := l |}, h', (options_after_construction o).
  split; [exact Hc|]. split; [reflexivity|]. split; [exact Hl'|].
  split; [exact Hframe|].
  assert (Hidem : createRetryHandler l h'
                  = Normal ({| captured_options := l |}, h')).
  { destruct (createRetryHandler_allocated l h' _ Hl')
      as (h'' & Hc' & Hl'' & Hframe').
    rewrite Hc'. do 2 f_equal. apply map_eq. intros l'.
    destruct (decide (l' = l)) as [->|Hne].
    - now rewrite Hl'', Hl', options_after_construction_idem.
    - now apply Hframe'. }
  cut (forall P Q R S : Prop, S -> P /\ Q /\ R -> P /\ Q /\ R /\ S);
    [|tauto].
  intros Hcut. apply Hcut; [exact Hidem|]. clear Hcut Hidem.
  unfold createRetryHandler in Hc. rewrite Hl in Hc.
  unfold options_after_construction, setExponentialBackOffPolicyDefault in *.
  destruct (backOffPolicy (props o)) as [[|]|] eqn:Hpolicy;
    cbn [policy_is_exponential] in *.
  1, 3: injection Hc as <-;
    repeat split; try reflexivity; try congruence.
  destruct o as [p uj jt]. cbn [props useJitter jitterType] in *.
  destruct (truthy_number (backOff p)); cbn;
    repeat split; try reflexivity; try congruence;
    now destruct (exponentialOption p) as [[mi mu]|].
Qed.

Lemma createRetryHandler_writes_defaults_witness :
  Scenario.heap_with (Scenario.literal Scenario.exponential_bare)
    !! Scenario.options_ref
  = Some (Scenario.literal Scenario.exponential_bare)
  /\ exists handler h' o',
       createRetryHandler Scenario.options_ref
         (Scenario.heap_with (Scenario.literal Scenario.exponential_bare))
       = Normal (handler, h')
       /\ h' !! Scenario.options_ref = Some o'
       /\ maxAttempts (props o') = 3.
Proof.
  assert (Hl : Scenario.heap_with (Scenario.literal Scenario.exponential_bare)
                 !! Scenario.options_ref
               = Some (Scenario.literal Scenario.exponential_bare))
    by reflexivity.
  split; [exact Hl|].
  destruct (createRetryHandler_writes_defaults _ _ _ Hl)
    as (handler & h' & o' & Hc & _ & Hl' & _ & (Hmax & _) & _).
  exists handler, h', o'. repeat split; assumption.
Defined.

(** C8, as stated, fails: the caller's object
    [{ maxAttempts: 3, backOffPolicy: ExponentialBackOffPolicy }] has no
    [backOff] and no [exponentialOption] before the handler is built, and
    has both afterwards. *)
Lemma createRetryHandler_mutates_caller_options :
  exists handler h' o',
    createRetryHandler Scenario.options_ref
      (Scenario.heap_with (Scenario.literal Scenario.exponential_bare))
    = Normal (handler, h')
    /\ Scenario.heap_with (Scenario.literal Scenario.exponential_bare)
         !! Scenario.options_ref
       = Some (Scenario.literal Scenario.exponential_bare)
    /\ h' !! Scenario.options_ref = Some o'
    /\ backOff (props (Scenario.literal Scenario.exponential_bare)) = None
    /\ backOff (props o') = Some 1000
    /\ exponentialOption (props (Scenario.literal Scenario.exponential_bare))
       = None
    /\ exponentialOption (props o')
       = Some {| maxInterval := 2000; multiplier := 2 |}
    /\ o' <> Scenario.literal Scenario.exponential_bare.
Proof.
  destruct (createRetryHandler_allocated Scenario.options_ref
              (Scenario.heap_with (Scenario.literal Scenario.exponential_bare))
              (Scenario.literal Scenario.exponential_bare) eq_refl)
    as (h' & Hc & Hl' & _).
  eexists _, h', _. split; [exact Hc|]. split; [reflexivity|].
  split; [exact Hl'|]. repeat split. discriminate.
Qed.

Section Validation.
Context {W V : Type} `{Host W}.




End Validation.



(** ** Delays *)

Section Delays.
Context {W V : Type} `{Host W}.
Variable options : RetryOptions.
Variable fn : W -> Outcome V * W.

Lemma sleep_completed_delay i b w1 waits w2 j ms wake :
  sleep_completed (V := V) i b w1 waits w2 ->
  In (Slept j ms wake) waits -> j = i /\ b = Some ms.
Proof.
  intros [(_ & -> & _) | (ms' & -> & _ & -> & _)] HIn; split_In HIn.
  now injection HIn as -> -> _.
Qed.

(** Every wait of the loop asks the timer for the value the local [backOff]
    holds at that index. *)
Lemma retryLoop_sleeps_nominal n i0 w0 :
  0 <= i0 ->
  forall i ms wake,
    In (Slept i ms wake)
       (events (retryLoop options fn n i0
                  (nominal_delay options (Z.to_nat i0)) w0)) ->
    0 <= i /\ nominal_delay options (Z.to_nat i) = Some ms.
Proof.
  revert i0 w0.
  induction n as [|n IH]; intros i0 w0 Hi0 i ms wake HIn;
    [contradiction|].
  rewrite retryLoop_S in HIn.
  destruct (attempt_viewP options fn i0
              (nominal_delay options (Z.to_nat i0)) w0)
    as [ | | | | | ? ? ? ? ? ? ? ? ? ? Hb
       | ? ? waits ? ? ? ? ? ? Hdone
       | ? ? waits w2 b' ? ? ? ? ? Hdone Hnext ];
    split_In HIn.
  - injection HIn as -> -> _. now split.
  - destruct (sleep_completed_delay _ _ _ _ _ _ _ _ Hdone HIn) as (-> & Hb).
    now split.
  - destruct (sleep_completed_delay _ _ _ _ _ _ _ _ Hdone HIn) as (-> & Hb).
    now split.
  - apply (IH (i0 + 1) w2) with (wake := wake); [lia|].
    replace (Z.to_nat (i0 + 1)) with (S (Z.to_nat i0)) by lia.
    cbn [nominal_delay]. rewrite Z2Nat.id by lia. rewrite Hnext.
    exact HIn.
Qed.

End Delays.


(** C3 on the options of the README
    ([{ maxAttempts: 3, backOffPolicy: ExponentialBackOffPolicy,
       backOff: 1000, exponentialOption: { maxInterval: 10000,
       multiplier: 3 } }], documented as waiting 1s, 3s, 9s) with an
    operation that always throws: the handler waits 1000, 1000 and 3000 ms,
    where [min(baseDelay * multiplier^i, maxInterval)] is 1000, 3000 and
    9000. *)
Theorem exponential_delays_on_readme_options :
  exists r h',
    withRetry_call (V := string) Scenario.options_ref
      (Scenario.heap_with (Scenario.literal Scenario.exponential_readme))
      (Scenario.mock [] (Threw (Scenario.Error "I failed!")))
      Scenario.start
    = Normal (r, h')
    /\ sleeps (events r) =
         [(0, 1000, TimerFired); (1, 1000, TimerFired); (2, 3000, TimerFired)]
    /\ map (exponential_delay_spec 1000
              {| maxInterval := 10000; multiplier := 3 |}) [0; 1; 2]
       = [1000; 3000; 9000].
Proof.
  destruct (withRetry_call_allocated (V := string) Scenario.options_ref
              (Scenario.heap_with (Scenario.literal Scenario.exponential_readme))
              (Scenario.literal Scenario.exponential_readme)
              (Scenario.mock [] (Threw (Scenario.Error "I failed!")))
              Scenario.start eq_refl)
    as (h' & Hcall & _).
  eexists _, h'. split; [exact Hcall|].
  split; vm_compute; reflexivity.
Qed.

(** ** Jitter *)

(** C7 on the call of the test 'full jitter reduces backoff time variably':
    [withRetry({ maxAttempts: 2, backOff: 1000, useJitter: true,
    jitterType: 'full' }, fn)] with an [fn] that fails once and then
    succeeds.  The test expects a wait below 1000 ms that varies from run to
    run.  The handler asks the timer for 1000 ms, the nominal delay itself,
    the timer fires, and the call returns 1000 ms after it started: no line
    of [retry.decorator.ts] reads [useJitter] or [jitterType]. *)
Theorem full_jitter_wait_is_not_below_nominal :
  useJitter Scenario.full_jitter_test = Some true
  /\ jitterType Scenario.full_jitter_test = Some "full"
  /\ exists r h',
       withRetry_call Scenario.options_ref
         (Scenario.heap_with Scenario.full_jitter_test)
         (Scenario.mock [Threw (Scenario.Error "Failed")] (Returned "success"))
         Scenario.start
       = Normal (r, h')
       /\ settled r = Fulfilled "success"
       /\ events r =
            [Invoked 0 (Threw (Scenario.Error "Failed"));
             Slept 0 1000 TimerFired;
             Invoked 1 (Returned "success")]
       /\ nominal_delay
            (props (options_after_construction Scenario.full_jitter_test)) 0
          = Some 1000
       /\ Scenario.now (final r) - Scenario.now Scenario.start = 1000.
Proof.
  split; [reflexivity|]. split; [reflexivity|].
  destruct (withRetry_call_allocated Scenario.options_ref
              (Scenario.heap_with Scenario.full_jitter_test)
              Scenario.full_jitter_test
              (Scenario.mock [Threw (Scenario.Error "Failed")]
                 (Returned "success"))
              Scenario.start eq_refl)
    as (h' & Hcall & _).
  eexists _, h'. split; [exact Hcall|].
  repeat split; vm_compute; reflexivity.
Qed.

(** * Further properties of the engine *)

(** ** The shape of a trace *)

Section TraceShape.
Context {W V : Type} `{Host W}.
Variable options : RetryOptions.
Variable fn : W -> Outcome V * W.

Lemma call_indices_app (l1 l2 : list (Event V)) :
  call_indices (l1 ++ l2) = (call_indices l1 ++ call_indices l2)%list.
Proof.
  induction l1 as [|[i o | i ms wake] l1 IH]; cbn [call_indices app];
    [reflexivity | now rewrite IH | exact IH].
Qed.

Lemma sleep_completed_no_index i b w1 waits w2 :
  sleep_completed (V := V) i b w1 waits w2 -> call_indices waits = [].
Proof.
  intros [(_ & -> & _) | (ms & _ & _ & -> & _)]; reflexivity.
Qed.

Lemma retryLoop_call_indices n i0 b w :
  call_indices (events (retryLoop options fn n i0 b w))
  = seqZ i0 (invocations (events (retryLoop options fn n i0 b w))).
Proof.
  revert i0 b w.
  induction n as [|n IH]; intros i0 b w; [reflexivity|].
  rewrite retryLoop_S.
  destruct (attempt_viewP options fn i0 b w)
    as [ | | | | | | ? ? waits ? ? ? ? ? ? Hdone
       | ? ? waits w2 b' ? ? ? ? ? Hdone ];
    cbn [events prepend]; try reflexivity.
  - cbn [call_indices]. count_calls.
    rewrite (sleep_completed_no_index _ _ _ _ _ Hdone).
    pose proof (sleep_completed_invocations _ _ _ _ _ Hdone) as ->.
    reflexivity.
  - cbn [call_indices app]. rewrite call_indices_app.
    rewrite (sleep_completed_no_index _ _ _ _ _ Hdone). cbn [app].
    rewrite IH. count_calls.
    pose proof (sleep_completed_invocations _ _ _ _ _ Hdone) as ->.
    pose proof (invocations_nonneg
                  (events (retryLoop options fn n (i0 + 1) b' w2))).
    rewrite (seqZ_cons i0) by lia.
    f_equal. f_equal; lia.
Qed.

(** X10: the calls of a run carry the indices 0, 1, 2, ... in order, one
    call per index: the call of index [i] is call number [i + 1]. *)
Theorem calls_are_numbered_in_order (w : W) :
  call_indices (events (retryAsync options fn w))
  = seqZ 0 (invocations (events (retryAsync options fn w))).
Proof. apply retryLoop_call_indices. Qed.

(** What surrounds a wait in the trace of the loop. *)
Lemma retryLoop_slept n i0 b w i ms wake :
  In (Slept i ms wake) (events (retryLoop options fn n i0 b w)) ->
  ms <> 0 /\ i <> maxAttempts options /\ i0 <= i < i0 + Z.of_nat n
  /\ exists e,
       In (Invoked i (Threw e)) (events (retryLoop options fn n i0 b w))
       /\ canRetry options e = true.
Proof.
  revert i0 b w.
  induction n as [|n IH]; intros i0 b w HIn; [contradiction|].
  rewrite retryLoop_S in *.
  destruct (attempt_viewP options fn i0 b w)
    as [ | | | | | e ? ? ? ? ? ? ? ? ? ? Hms
       | e ? waits ? ? ? ? ? ? Hdone
       | e ? waits w2 b' ? ? ? ? ? Hdone ];
    split_In HIn.
  - injection HIn as -> -> _.
    repeat split; try assumption; try lia.
    exists e. split; [now left | assumption].
  - destruct Hdone as [(_ & -> & _) | (ms' & _ & Hms & -> & _)];
      split_In HIn.
    injection HIn as -> -> _.
    repeat split; try assumption; try lia.
    exists e. split; [now left | assumption].
  - destruct Hdone as [(_ & -> & _) | (ms' & _ & Hms & -> & _)];
      split_In HIn.
    injection HIn as -> -> _.
    repeat split; try assumption; try lia.
    exists e. split; [now left | assumption].
  - destruct (IH _ _ _ HIn) as (Hms & Hi & Hrange & e' & He' & Hcan).
    repeat split; try assumption; try lia.
    exists e'. split; [|assumption].
    cbn [prepend events]. right. apply in_or_app. now right.
Qed.

(** X11: the engine waits only between attempts: every wait of a run
    follows a call of the same index that threw an error [canRetry] accepts,
    that index is below [maxAttempts], and the delay asked of the timer is
    not 0.  So there is no wait after a success, after a rejected error or
    after the last attempt. *)
Theorem waits_follow_retryable_failures (w : W) (i ms : Z) (wake : Wake) :
  In (Slept i ms wake) (events (retryAsync options fn w)) ->
  0 <= i < maxAttempts options
  /\ ms <> 0
  /\ exists e,
       In (Invoked i (Threw e)) (events (retryAsync options fn w))
       /\ canRetry options e = true.
Proof.
  intros HIn. unfold retryAsync in *.
  destruct (retryLoop_slept _ _ _ _ _ _ _ HIn)
    as (Hms & Hi & Hrange & e & He & Hcan).
  unfold iterations in Hrange.
  split; [lia|]. split; [exact Hms|]. now exists e.
Qed.

Lemma slept_delay_nonzero (w : W) (i ms : Z) (wake : Wake) :
  In (Slept i ms wake) (events (retryAsync options fn w)) -> ms <> 0.
Proof.
  intros HIn. unfold retryAsync in *.
  now destruct (retryLoop_slept _ _ _ _ _ _ _ HIn) as (Hms & _).
Qed.

End TraceShape.

(** ** How the promise settles *)

Section Settling.
Context {W V : Type} `{Host W}.
Variable options : RetryOptions.
Variable fn : W -> Outcome V * W.

(** X1: a call that returns ends the run: the promise is fulfilled with the
    returned value, that call is the last event of the trace (no wait, no
    further call, whatever budget is left), and it is call number [i + 1];
    and a promise fulfilled with a value got it from the last call. *)
Theorem success_is_final (w : W) :
  let r := retryAsync options fn w in
  (forall i v,
     In (Invoked i (Returned v)) (events r) ->
     settled r = Fulfilled v
     /\ (exists pre, events r = (pre ++ [Invoked i (Returned v)])%list)
     /\ invocations (events r) = i + 1)
  /\ (forall v,
        settled r = Fulfilled v ->
        exists pre i, events r = (pre ++ [Invoked i (Returned v)])%list).
Proof.
  intros r. subst r. unfold retryAsync.
  destruct (retryLoop_ends options fn (iterations options 0) 0
              (backOff options) w)
    as (j & pre & Hpre & Hcount &
        [(bj & wj & r & _ & Hv & Heq) | (wj & _ & Heq)]);
    rewrite Heq; clear Heq; cbn [prepend events settled].
  - split.
    + intros i v HIn.
      split_In HIn; [in_prefix Hpre HIn; contradiction|].
      inversion Hv as
        [ | v' ? ? ? | | | | | ? ? waits ? ? ? ? ? ? Hdone | ];
        subst r; split_In HIn.
      * injection HIn as -> ->. cbn [settled events].
        split; [reflexivity|]. split; [now exists pre|].
        count_calls. lia.
      * now apply (sleep_completed_no_call _ _ _ _ _ _ _ Hdone) in HIn.
    + intros v Hset.
      inversion Hv as [ | v' ? ? ? | | | | | | ]; subst r;
        cbn [settled events] in *; try discriminate.
      * injection Hset as ->. now exists pre, j.
      * destruct (truthy_flag (reraise options)); discriminate.
  - split; [|intros v [=]].
    intros i v HIn. in_prefix Hpre HIn. contradiction.
Qed.

(** Exactly which loop exit produced each kind of settlement. *)
Lemma retryLoop_never_falls_through n i0 b w :
  (0 < n)%nat ->
  i0 + Z.of_nat n = maxAttempts options + 1 ->
  settled (retryLoop options fn n i0 b w) <> FulfilledUndefined.
Proof.
  revert i0 b w.
  induction n as [|n IH]; intros i0 b w Hn Hlast; [lia|].
  rewrite retryLoop_S.
  destruct (attempt_viewP options fn i0 b w)
    as [ | | | | | | | ? ? ? w2 b' ? ? Hi ];
    cbn [settled prepend]; try discriminate.
  - destruct (truthy_flag (reraise options)); discriminate.
  - apply IH; lia.
Qed.

(** X2: with [maxAttempts] at least 0 the function body never runs off its
    end: the promise is never fulfilled with [undefined] by the engine; it
    is fulfilled with what the operation returned, or rejected. *)
Theorem never_resolves_undefined (w : W) :
  0 <= maxAttempts options ->
  settled (retryAsync options fn w) <> FulfilledUndefined.
Proof.
  intros Hmax. unfold retryAsync.
  apply retryLoop_never_falls_through; unfold iterations; lia.
Qed.

(** X12: a promise rejected with [MaxAttemptsError] means the operation was
    invoked exactly [maxAttempts + 1] times, one more than the error's
    [retryCount]. *)
Theorem MaxAttemptsError_counts_calls (w : W) (m : MaxAttemptsError) :
  settled (retryAsync options fn w) = Rejected (ThrowMaxAttempts m) ->
  invocations (events (retryAsync options fn w)) = maxAttempts options + 1
  /\ invocations (events (retryAsync options fn w)) = retryCount m + 1.
Proof.
  unfold retryAsync.
  destruct (retryLoop_ends options fn (iterations options 0) 0
              (backOff options) w)
    as (j & pre & Hpre & Hcount &
        [(bj & wj & r & _ & Hv & Heq) | (wj & _ & Heq)]);
    rewrite Heq; clear Heq; cbn [prepend events settled]; [|discriminate].
  inversion Hv as [ | | e ? ? ? Hj | | | | | ]; subst r;
    cbn [settled events]; try discriminate.
  destruct (truthy_flag (reraise options)); [discriminate|].
  intros [= <-]. cbn [new_MaxAttemptsError retryCount].
  count_calls. lia.
Qed.

(** X13: the operation's own error reaches the caller unwrapped in two
    situations only: it was thrown by the last call of the run, and either
    that call had index [maxAttempts] and [reraise] is set, or it had
    another index and [canRetry] rejected the error. *)
Theorem original_error_is_unwrapped_only_two_ways (w : W) (e : JsError) :
  settled (retryAsync options fn w) = Rejected (ThrowOriginal e) ->
  exists pre i,
    events (retryAsync options fn w) = (pre ++ [Invoked i (Threw e)])%list
    /\ ((i = maxAttempts options /\ truthy_flag (reraise options) = true)
        \/ (i <> maxAttempts options /\ canRetry options e = false)).
Proof.
  unfold retryAsync.
  destruct (retryLoop_ends options fn (iterations options 0) 0
              (backOff options) w)
    as (j & pre & Hpre & Hcount &
        [(bj & wj & r & _ & Hv & Heq) | (wj & _ & Heq)]);
    rewrite Heq; clear Heq; cbn [prepend events settled]; [|discriminate].
  inversion Hv as [ | | e' ? ? ? Hj | e' ? ? ? Hj Hcan | | | | ]; subst r;
    cbn [settled events]; try discriminate.
  - destruct (truthy_flag (reraise options)) eqn:Hflag; [|discriminate].
    intros [= ->]. exists pre, j. split; [reflexivity|]. now left.
  - intros [= ->]. exists pre, j. split; [reflexivity|]. now right.
Qed.

(** X8: without a signal in the options nothing can cancel a run: the
    promise is never rejected with an [AbortError] and every wait lasts
    until its timer fires. *)
Theorem no_signal_no_abort (w : W) :
  signal options = None ->
  (forall a, settled (retryAsync options fn w) <> Rejected (ThrowAbort a))
  /\ (forall i ms wake,
        In (Slept i ms wake) (events (retryAsync options fn w)) ->
        wake = TimerFired).
Proof.
  intros Hnone. unfold retryAsync.
  destruct (retryLoop_ends options fn (iterations options 0) 0
              (backOff options) w)
    as (j & pre & Hpre & Hcount &
        [(bj & wj & r & _ & Hv & Heq) | (wj & _ & Heq)]);
    rewrite Heq; clear Heq; cbn [prepend events settled].
  - split.
    + intros a.
      inversion Hv; subst r; cbn [settled]; try discriminate;
        try (rewrite Hnone in *; cbn [signal_aborted] in *; congruence).
      destruct (truthy_flag (reraise options)); discriminate.
    + intros i ms wake HIn.
      split_In HIn.
      * in_prefix Hpre HIn. now destruct wake.
      * inversion Hv as [ | | | | | | ? ? waits ? ? ? ? ? ? Hdone | ];
          subst r; split_In HIn; try congruence.
        destruct Hdone as [(_ & -> & _) | (ms' & _ & _ & -> & _)];
          split_In HIn.
        now injection HIn as _ _ <-.
  - split; [intros a; discriminate|].
    intros i ms wake HIn. in_prefix Hpre HIn. now destruct wake.
Qed.

End Settling.

(** ** What the two policies compute *)

Section Policies.
Context {W V : Type} `{Host W}.
Variable options : RetryOptions.
Variable fn : W -> Outcome V * W.

Lemma nominal_delay_fixed (k : nat) :
  policy_is_exponential (backOffPolicy options) = false ->
  nominal_delay options k = backOff options.
Proof.
  intros Hfixed. induction k as [|k IH]; [reflexivity|].
  cbn [nominal_delay]. unfold next_backOff. now rewrite Hfixed.
Qed.

Lemma slept_is_nominal (w : W) (i ms : Z) (wake : Wake) :
  In (Slept i ms wake) (events (retryAsync options fn w)) ->
  nominal_delay options (Z.to_nat i) = Some ms.
Proof.
  intros HIn. unfold retryAsync in HIn.
  now apply (retryLoop_sleeps_nominal options fn (iterations options 0) 0 w
               ltac:(lia) i ms wake).
Qed.

(** X4: unless the policy is [ExponentialBackOffPolicy], every wait of a run
    asks the timer for the same delay, [options.backOff]. *)
Theorem fixed_policy_waits_backOff (w : W) (i ms : Z) (wake : Wake) :
  backOffPolicy options <> Some ExponentialBackOffPolicy ->
  In (Slept i ms wake) (events (retryAsync options fn w)) ->
  backOff options = Some ms.
Proof.
  intros Hfixed HIn.
  rewrite <- (nominal_delay_fixed (Z.to_nat i)).
  - now apply slept_is_nominal with (w := w) (wake := wake).
  - now destruct (backOffPolicy options) as [[|]|].
Qed.

(** X5: unless the policy is [ExponentialBackOffPolicy], a [backOff] that is
    unset or 0 means no wait at all: retries follow one another at once. *)
Theorem no_backOff_no_wait (w : W) :
  backOffPolicy options <> Some ExponentialBackOffPolicy ->
  truthy_number (backOff options) = false ->
  sleeps (events (retryAsync options fn w)) = [].
Proof.
  intros Hfixed Hfalsy.
  assert (Hnone : forall i ms wake,
            ~ In (Slept i ms wake) (events (retryAsync options fn w))).
  { intros i ms wake HIn.
    pose proof (fixed_policy_waits_backOff w i ms wake Hfixed HIn) as Hb.
    pose proof (slept_delay_nonzero options fn w i ms wake HIn) as Hms.
    rewrite Hb in Hfalsy. cbn [truthy_number] in Hfalsy.
    destruct (Z.eqb_spec ms 0); [contradiction | discriminate]. }
  induction (events (retryAsync options fn w)) as [|[i o | i ms wake] evs IH];
    cbn [sleeps]; [reflexivity | |].
  - apply IH. intros i' ms' wake' HIn. apply (Hnone i' ms' wake'). now right.
  - exfalso. apply (Hnone i ms wake). now left.
Qed.

(** X6: under [ExponentialBackOffPolicy] every wait but the first asks the
    timer for at most [exponentialOption.maxInterval]; the first one asks
    for [options.backOff], whatever the cap. *)
Theorem exponential_waits_are_capped (w : W) (eo : ExponentialOption)
    (i ms : Z) (wake : Wake) :
  backOffPolicy options = Some ExponentialBackOffPolicy ->
  exponentialOption options = Some eo ->
  In (Slept i ms wake) (events (retryAsync options fn w)) ->
  (i = 0 -> backOff options = Some ms)
  /\ (1 <= i -> ms <= maxInterval eo).
Proof.
  intros Hpolicy Heo HIn.
  pose proof (slept_is_nominal w i ms wake HIn) as Hnom.
  split.
  - intros ->. exact Hnom.
  - intros Hi.
    replace (Z.to_nat i) with (S (Z.to_nat (i - 1))) in Hnom by lia.
    cbn [nominal_delay] in Hnom. unfold next_backOff in Hnom.
    rewrite Hpolicy, Heo in Hnom. cbn [policy_is_exponential] in Hnom.
    destruct (nominal_delay options (Z.to_nat (i - 1))); [|discriminate].
    injection Hnom as <-. lia.
Qed.





Lemma nominal_delay_nonneg (k : nat) (base d : Z) :
  backOff options = Some base -> 0 <= base ->
  (forall eo, exponentialOption options = Some eo ->
              0 <= multiplier eo /\ 0 <= maxInterval eo) ->
  nominal_delay options k = Some d -> 0 <= d.
Proof.
  intros Hbase Hpos Heo. revert d.
  induction k as [|k IH]; intros d Hd; cbn [nominal_delay] in Hd.
  - congruence.
  - unfold next_backOff in Hd.
    destruct (policy_is_exponential (backOffPolicy options)); [|now apply IH].
    destruct (exponentialOption options) as [eo|]; [|discriminate].
    destruct (Heo eo eq_refl) as (Hm & Hcap).
    destruct (nominal_delay options k) as [x|]; [|discriminate].
    injection Hd as <-. specialize (IH x eq_refl).
    pose proof (Z.pow_nonneg (multiplier eo) (Z.of_nat k) Hm). nia.
Qed.



(** X14: with a [backOff], a [multiplier] and a [maxInterval] that are not
    negative, every wait asks the timer for a positive delay. *)
Theorem waits_are_positive (w : W) (base i ms : Z) (wake : Wake) :
  backOff options = Some base -> 0 <= base ->
  (forall eo, exponentialOption options = Some eo ->
              0 <= multiplier eo /\ 0 <= maxInterval eo) ->
  In (Slept i ms wake) (events (retryAsync options fn w)) ->
  0 < ms.
Proof.
  intros Hbase Hpos Heo HIn.
  pose proof (slept_is_nominal w i ms wake HIn) as Hnom.
  pose proof (nominal_delay_nonneg _ base ms Hbase Hpos Heo Hnom).
  pose proof (slept_delay_nonzero options fn w i ms wake HIn) as Hms.
  lia.
Qed.

End Policies.

(** ** Runs that use the whole budget, and handlers that cannot trip *)

Section WholeBudget.
Context {W V : Type} `{Host W}.
Variable options : RetryOptions.
Variable fn : W -> Outcome V * W.

Lemma next_backOff_abrupt_inv i b t :
  next_backOff options i b = Abrupt t ->
  backOffPolicy options = Some ExponentialBackOffPolicy
  /\ exponentialOption options = None.
Proof.
  unfold next_backOff.
  destruct (backOffPolicy options) as [[|]|]; cbn [policy_is_exponential];
    try discriminate.
  destruct (exponentialOption options); [discriminate|]. now split.
Qed.

Lemma retryLoop_always_failing n i0 b w :
  (0 < n)%nat ->
  i0 + Z.of_nat n = maxAttempts options + 1 ->
  (forall w0, signal_aborted (signal options) w0 = false) ->
  (forall s w0, signal options = Some s -> abort_after s w0 = None) ->
  (backOffPolicy options = Some ExponentialBackOffPolicy ->
   exponentialOption options <> None) ->
  (forall w0, exists e w1,
      fn w0 = (Threw e, w1) /\ canRetry options e = true) ->
  invocations (events (retryLoop options fn n i0 b w)) = Z.of_nat n
  /\ exists e,
       settled (retryLoop options fn n i0 b w) =
         if truthy_flag (reraise options)
         then Rejected (ThrowOriginal e)
         else Rejected (ThrowMaxAttempts
                          (new_MaxAttemptsError e (maxAttempts options))).
Proof.
  intros Hn Hlast Hlive Hquiet Hexp Hfn. revert i0 b w Hn Hlast.
  induction n as [|n IH]; intros i0 b w Hn Hlast; [lia|].
  rewrite retryLoop_S.
  destruct (Hfn w) as (e0 & w0 & Hcall & Hcan0).
  destruct (attempt_viewP options fn i0 b w)
    as [ Hab | ? ? ? Hret | e ? ? Hthrow Hi | e ? ? Hthrow Hi Hcan
       | ? ? ? ? ? ? Hab | ? ? ? s t ? ? ? ? ? ? ? Hs Hafter
       | ? ? ? ? ? ? ? ? ? ? Hnext
       | e w1 waits w2 b' ? ? Hi ? ? Hdone ];
    cbn [events settled prepend];
    try (rewrite Hlive in *; discriminate);
    try congruence.
  - subst i0. split; [count_calls; lia|]. now exists e.
  - rewrite (Hquiet s _ Hs) in Hafter. discriminate.
  - destruct (next_backOff_abrupt_inv _ _ _ Hnext) as (Hpolicy & Hnone).
    now destruct (Hexp Hpolicy).
  - destruct (IH (i0 + 1) b' w2) as (Hcount & e' & Hset); [lia | lia |].
    split; [|now exists e'].
    count_calls.
    pose proof (sleep_completed_invocations _ _ _ _ _ Hdone). lia.
Qed.

(** X9: the budget is reached.  When nothing aborts and every call throws an
    error [canRetry] accepts, a run invokes the operation exactly
    [maxAttempts + 1] times and ends by exhaustion: the last error is
    rethrown under [reraise], wrapped in a [MaxAttemptsError] otherwise. *)
Theorem always_failing_uses_whole_budget (w : W) :
  0 <= maxAttempts options ->
  (forall w0, signal_aborted (signal options) w0 = false) ->
  (forall s w0, signal options = Some s -> abort_after s w0 = None) ->
  (backOffPolicy options = Some ExponentialBackOffPolicy ->
   exponentialOption options <> None) ->
  (forall w0, exists e w1,
      fn w0 = (Threw e, w1) /\ canRetry options e = true) ->
  invocations (events (retryAsync options fn w)) = maxAttempts options + 1
  /\ exists e,
       settled (retryAsync options fn w) =
         if truthy_flag (reraise options)
         then Rejected (ThrowOriginal e)
         else Rejected (ThrowMaxAttempts
                          (new_MaxAttemptsError e (maxAttempts options))).
Proof.
  intros Hmax Hlive Hquiet Hexp Hfn. unfold retryAsync.
  destruct (retryLoop_always_failing (iterations options 0) 0
              (backOff options) w) as (Hcount & Hset);
    unfold iterations in *; try assumption; try lia.
  split; [lia | exact Hset].
Qed.

Lemma retryAsync_TypeError (w : W) :
  settled (retryAsync options fn w) = Rejected ThrowTypeError ->
  backOffPolicy options = Some ExponentialBackOffPolicy
  /\ exponentialOption options = None.
Proof.
  unfold retryAsync.
  destruct (retryLoop_ends options fn (iterations options 0) 0
              (backOff options) w)
    as (j & pre & Hpre & Hcount &
        [(bj & wj & r & _ & Hv & Heq) | (wj & _ & Heq)]);
    rewrite Heq; clear Heq; cbn [prepend events settled]; [|discriminate].
  inversion Hv as [ | | | | | | ? ? ? ? ? ? ? ? ? ? Hnext | ]; subst r;
    cbn [settled]; try discriminate.
  - destruct (truthy_flag (reraise options)); discriminate.
  - intros _. exact (next_backOff_abrupt_inv _ _ _ Hnext).
Qed.

End WholeBudget.

Lemma exponentialOption_after_construction (o : OptionsObject) :
  backOffPolicy (props (options_after_construction o))
  = Some ExponentialBackOffPolicy ->
  truthy_number (backOff (props (options_after_construction o))) = true
  /\ exponentialOption (props (options_after_construction o)) <> None.
Proof.
  unfold options_after_construction, setExponentialBackOffPolicyDefault.
  destruct (backOffPolicy (props o)) as [[|]|] eqn:Hpolicy;
    cbn [policy_is_exponential]; try congruence.
  intros _. destruct o as [p uj jt]. cbn [props set_props] in *.
  destruct (truthy_number (backOff p)) eqn:Hb; cbn; auto.
Qed.

(** X3: a handler built by [createRetryHandler] never trips on its own
    options object: the defaults it wrote make [exponentialOption] present
    whenever the policy is exponential, so no call through the handler is
    rejected with the [TypeError] of reading [multiplier] off [undefined],
    and under that policy [backOff] is a non-zero number, so the first
    retry is always preceded by a wait. *)
Theorem handler_never_throws_TypeError {W V : Type} `{Host W}
    (l : loc) (h : gmap loc OptionsObject) (o : OptionsObject)
    (fn : W -> Outcome V * W) (w : W) :
  h !! l = Some o ->
  exists r h' o',
    withRetry_call l h fn w = Normal (r, h')
    /\ settled r <> Rejected ThrowTypeError
    /\ h' !! l = Some o'
    /\ (backOffPolicy (props o) = Some ExponentialBackOffPolicy ->
        truthy_number (backOff (props o')) = true
        /\ exponentialOption (props o') <> None).
Proof.
  intros Hl.
  destruct (withRetry_call_allocated l h o fn w Hl) as (h' & Hcall & Hl').
  eexists _, h', _. split; [exact Hcall|].
  split; [|split; [exact Hl'|]].
  - intros Htype. apply retryAsync_TypeError in Htype as (Hpolicy & Hnone).
    now destruct (exponentialOption_after_construction o Hpolicy).
  - intros Hpolicy. apply exponentialOption_after_construction.
    unfold options_after_construction. rewrite Hpolicy.
    cbn [policy_is_exponential set_props props].
    unfold setExponentialBackOffPolicyDefault.
    now destruct (truthy_number (backOff (props o))).
Qed.

(** ** The type filter and the prototype chain *)

Lemma instanceof_on_chain (e : JsError) (c : ErrorConstructor) :
  In c (err_chain e) -> instanceof e c = true.
Proof.
  intros Hin. unfold instanceof. apply existsb_exists.
  exists c. split; [exact Hin | apply String.eqb_refl].
Qed.

(** X15: the type filter matches along the prototype chain: an error is
    retryable as soon as one constructor on its chain is listed in [value]
    (an instance of a subclass of a listed class matches), provided
    [doRetry], when configured, accepts it. *)
Theorem listed_ancestor_is_retryable (options : RetryOptions) (e : JsError)
    (types : list ErrorConstructor) (c : ErrorConstructor) :
  value options = Some types ->
  In c types -> In c (err_chain e) ->
  (forall p, doRetry options = Some p -> p e = true) ->
  canRetry options e = true.
Proof.
  intros Hvalue Hlisted Hchain Hpred. unfold canRetry.
  rewrite Hvalue.
  assert (Hex : existsb (instanceof e) types = true)
    by (apply existsb_exists; exists c; split;
        [exact Hlisted | now apply instanceof_on_chain]).
  rewrite Hex, andb_false_r.
  destruct (doRetry options) as [p|]; [|reflexivity].
  now rewrite (Hpred p eq_refl).
Qed.

(** ** The outbound contract *)

(** X16: with [maxAttempts] at least 0, a call through a handler built by
    [createRetryHandler] settles in one of four ways and no other: it is
    fulfilled with a value the operation returned, or rejected with the
    engine's [AbortError], with a [MaxAttemptsError], or with an error the
    operation threw. *)
Theorem handler_settles_four_ways {W V : Type} `{Host W}
    (l : loc) (h : gmap loc OptionsObject) (o : OptionsObject)
    (fn : W -> Outcome V * W) (w : W) :
  h !! l = Some o ->
  0 <= maxAttempts (props o) ->
  exists r h',
    withRetry_call l h fn w = Normal (r, h')
    /\ ((exists v, settled r = Fulfilled v)
        \/ settled r = Rejected (ThrowAbort abort_error)
        \/ (exists m, settled r = Rejected (ThrowMaxAttempts m))
        \/ (exists e, settled r = Rejected (ThrowOriginal e))).
Proof.
  intros Hl Hmax.
  destruct (withRetry_call_allocated l h o fn w Hl) as (h' & Hcall & _).
  eexists _, h'. split; [exact Hcall|].
  set (options := props (options_after_construction o)).
  assert (Hmax' : 0 <= maxAttempts options)
    by (unfold options; now rewrite maxAttempts_after_construction).
  pose proof (retryAsync_TypeError options fn w) as Htype.
  assert (Hfall : settled (retryAsync options fn w) <> FulfilledUndefined).
  { unfold retryAsync.
    apply retryLoop_never_falls_through; unfold iterations; lia. }
  assert (Habort : forall a,
            settled (retryAsync options fn w) = Rejected (ThrowAbort a) ->
            a = abort_error).
  { intros a. unfold retryAsync.
    destruct (retryLoop_ends options fn (iterations options 0) 0
                (backOff options) w)
      as (j & pre & _ & _ &
          [(bj & wj & r & _ & Hv & Heq) | (wj & _ & Heq)]);
      rewrite Heq; clear Heq; cbn [prepend settled]; [|discriminate].
    inversion Hv; subst r; cbn [settled]; try discriminate;
      try (now intros [= <-]).
    destruct (truthy_flag (reraise options)); discriminate. }
  destruct (settled (retryAsync options fn w)) as [v | | [e | a | m | ]].
  - left. now exists v.
  - contradiction.
  - right. right. right. now exists e.
  - right. left. now rewrite (Habort a eq_refl).
  - right. right. left. now exists m.
  - destruct (Htype eq_refl) as (Hpolicy & Hnone).
    now destruct (exponentialOption_after_construction o Hpolicy).
Qed.

(** ** The further properties on the scenarios of the test suite *)

Lemma never_resolves_undefined_witness :
  0 <= maxAttempts (Scenario.only_maxAttempts 2)
  /\ settled
       (retryAsync (Scenario.only_maxAttempts 2)
          (Scenario.mock [Threw (Scenario.Error "rejected")]
             (Returned "fulfilled"))
          Scenario.start)
     <> FulfilledUndefined.
Proof.
  split; [vm_compute; discriminate|].
  apply (never_resolves_undefined (Scenario.only_maxAttempts 2)).
  vm_compute; discriminate.
Defined.

Lemma handler_never_throws_TypeError_witness :
  Scenario.heap_with (Scenario.literal Scenario.exponential_bare)
    !! Scenario.options_ref
  = Some (Scenario.literal Scenario.exponential_bare)
  /\ exists r h',
       withRetry_call (V := string) Scenario.options_ref
         (Scenario.heap_with (Scenario.literal Scenario.exponential_bare))
         (Scenario.mock [] (Threw (Scenario.Error "Failed")))
         Scenario.start
       = Normal (r, h')
       /\ settled r <> Rejected ThrowTypeError.
Proof.
  assert (Hl : Scenario.heap_with (Scenario.literal Scenario.exponential_bare)
                 !! Scenario.options_ref
               = Some (Scenario.literal Scenario.exponential_bare))
    by reflexivity.
  split; [exact Hl|].
  destruct (handler_never_throws_TypeError (V := string)
              Scenario.options_ref _ _
              (Scenario.mock [] (Threw (Scenario.Error "Failed")))
              Scenario.start Hl)
    as (r & h' & o' & Hcall & Hsafe & _).
  exists r, h'. split; [exact Hcall | exact Hsafe].
Defined.

Lemma fixed_policy_waits_backOff_witness :
  backOffPolicy (Scenario.fixed 3 1000) <> Some ExponentialBackOffPolicy
  /\ In (Slept (V := string) 1 1000 TimerFired)
        (events
           (retryAsync (Scenario.fixed 3 1000)
              (Scenario.mock [] (Threw (Scenario.Error "Error: 500")))
              Scenario.start))
  /\ backOff (Scenario.fixed 3 1000) = Some 1000.
Proof.
  split; [discriminate|].
  split; [vm_compute; auto 10|].
  apply (fixed_policy_waits_backOff (V := string) (Scenario.fixed 3 1000)
           (Scenario.mock [] (Threw (Scenario.Error "Error: 500")))
           Scenario.start 1 1000 TimerFired).
  - discriminate.
  - vm_compute; auto 10.
Defined.

Lemma no_backOff_no_wait_witness :
  truthy_number (backOff (Scenario.only_maxAttempts 2)) = false
  /\ sleeps
       (events
          (retryAsync (V := string) (Scenario.only_maxAttempts 2)
             (Scenario.mock [] (Threw (Scenario.Error "rejected")))
             Scenario.start))
     = [].
Proof.
  split; [reflexivity|].
  apply (no_backOff_no_wait (Scenario.only_maxAttempts 2)).
  - discriminate.
  - reflexivity.
Defined.

Lemma exponential_waits_are_capped_witness :
  In (Slept (V := string) 2 3000 TimerFired)
     (events
        (retryAsync Scenario.exponential_readme
           (Scenario.mock [] (Threw (Scenario.Error "I failed!")))
           Scenario.start))
  /\ 3000 <= 10000.
Proof.
  split; [vm_compute; auto 10|].
  apply (exponential_waits_are_capped (V := string)
           Scenario.exponential_readme
           (Scenario.mock [] (Threw (Scenario.Error "I failed!")))
           Scenario.start {| maxInterval := 10000; multiplier := 3 |}
           2 3000 TimerFired);
    [reflexivity | reflexivity | vm_compute; auto 10 | lia].
Defined.


Lemma no_signal_no_abort_witness :
  signal (Scenario.fixed 3 1000) = None
  /\ forall a,
       settled
         (retryAsync (V := string) (Scenario.fixed 3 1000)
            (Scenario.mock [] (Threw (Scenario.Error "Error: 500")))
            Scenario.start)
       <> Rejected (ThrowAbort a).
Proof.
  split; [reflexivity|].
  apply (no_signal_no_abort (Scenario.fixed 3 1000)).
  reflexivity.
Defined.

Lemma always_failing_uses_whole_budget_witness :
  0 <= maxAttempts (Scenario.fixed 3 1000)
  /\ invocations
       (events
          (retryAsync (V := string) (Scenario.fixed 3 1000)
             (Scenario.mock [] (Threw (Scenario.Error "Error: 500")))
             Scenario.start))
     = maxAttempts (Scenario.fixed 3 1000) + 1.
Proof.
  assert (Hmax : 0 <= maxAttempts (Scenario.fixed 3 1000))
    by (vm_compute; discriminate).
  split; [exact Hmax|].
  apply (always_failing_uses_whole_budget (V := string)
           (Scenario.fixed 3 1000)
           (Scenario.mock [] (Threw (Scenario.Error "Error: 500")))
           Scenario.start Hmax).
  - intros w0. reflexivity.
  - intros s w0. discriminate.
  - discriminate.
  - intros w0. unfold Scenario.mock.
    destruct (Scenario.calls w0); eexists _, _; split; reflexivity.
Defined.

Lemma waits_follow_retryable_failures_witness :
  In (Slept (V := string) 1 1000 TimerFired)
     (events
        (retryAsync (Scenario.fixed 3 1000)
           (Scenario.mock [] (Threw (Scenario.Error "Error: 500")))
           Scenario.start))
  /\ 0 <= 1 < maxAttempts (Scenario.fixed 3 1000)
  /\ 1000 <> 0.
Proof.
  split; [vm_compute; auto 10|].
  destruct (waits_follow_retryable_failures (V := string)
              (Scenario.fixed 3 1000)
              (Scenario.mock [] (Threw (Scenario.Error "Error: 500")))
              Scenario.start 1 1000 TimerFired)
    as (Hrange & Hms & _); [vm_compute; auto 10|].
  split; [exact Hrange | exact Hms].
Defined.

Lemma MaxAttemptsError_counts_calls_witness :
  settled
    (retryAsync (V := string) (Scenario.only_maxAttempts 2)
       (Scenario.mock [] (Threw (Scenario.Error "rejected")))
       Scenario.start)
  = Rejected (ThrowMaxAttempts
                (new_MaxAttemptsError (Scenario.Error "rejected") 2))
  /\ invocations
       (events
          (retryAsync (V := string) (Scenario.only_maxAttempts 2)
             (Scenario.mock [] (Threw (Scenario.Error "rejected")))
             Scenario.start))
     = 2 + 1.
Proof.
  split; [reflexivity|].
  apply (MaxAttemptsError_counts_calls (V := string)
           (Scenario.only_maxAttempts 2)
           (Scenario.mock [] (Threw (Scenario.Error "rejected")))
           Scenario.start
           (new_MaxAttemptsError (Scenario.Error "rejected") 2)).
  reflexivity.
Defined.

Lemma original_error_is_unwrapped_only_two_ways_witness :
  settled
    (retryAsync (Scenario.syntax_only 2)
       (Scenario.mock [Threw (Scenario.Error "I failed!")] (Returned "ok"))
       Scenario.start)
  = Rejected (ThrowOriginal (Scenario.Error "I failed!"))
  /\ exists pre i,
       events
         (retryAsync (Scenario.syntax_only 2)
            (Scenario.mock [Threw (Scenario.Error "I failed!")]
               (Returned "ok"))
            Scenario.start)
       = (pre ++ [Invoked i (Threw (Scenario.Error "I failed!"))])%list
       /\ ((i = maxAttempts (Scenario.syntax_only 2)
            /\ truthy_flag (reraise (Scenario.syntax_only 2)) = true)
           \/ (i <> maxAttempts (Scenario.syntax_only 2)
               /\ canRetry (Scenario.syntax_only 2)
                    (Scenario.Error "I failed!") = false)).
Proof.
  split; [reflexivity|].
  apply (original_error_is_unwrapped_only_two_ways (Scenario.syntax_only 2)).
  reflexivity.
Defined.

Lemma waits_are_positive_witness :
  backOff (Scenario.fixed 3 1000) = Some 1000
  /\ In (Slept (V := string) 0 1000 TimerFired)
        (events
           (retryAsync (Scenario.fixed 3 1000)
              (Scenario.mock [] (Threw (Scenario.Error "Error: 500")))
              Scenario.start))
  /\ 0 < 1000.
Proof.
  split; [reflexivity|].
  split; [vm_compute; auto 10|].
  apply (waits_are_positive (V := string) (Scenario.fixed 3 1000)
           (Scenario.mock [] (Threw (Scenario.Error "Error: 500")))
           Scenario.start 1000 0 1000 TimerFired).
  - reflexivity.
  - lia.
  - intros eo. discriminate.
  - vm_compute; auto 10.
Defined.

Lemma listed_ancestor_is_retryable_witness :
  In "SyntaxError" ["SyntaxError"; "ReferenceError"]
  /\ canRetry (Scenario.syntax_only 2)
       {| err_message := "unexpected token";
          err_chain := ["ParseError"; "SyntaxError"; "Error"] |}
     = true.
Proof.
  split; [now left|].
  apply (listed_ancestor_is_retryable (Scenario.syntax_only 2)
           {| err_message := "unexpected token";
              err_chain := ["ParseError"; "SyntaxError"; "Error"] |}
           ["SyntaxError"; "ReferenceError"] "SyntaxError").
  - reflexivity.
  - now left.
  - right. now left.
  - intros p. discriminate.
Defined.

Lemma handler_settles_four_ways_witness :
  Scenario.heap_with (Scenario.literal (Scenario.only_maxAttempts 2))
    !! Scenario.options_ref
  = Some (Scenario.literal (Scenario.only_maxAttempts 2))
  /\ 0 <= maxAttempts (props (Scenario.literal (Scenario.only_maxAttempts 2)))
  /\ exists r h',
       withRetry_call Scenario.options_ref
         (Scenario.heap_with (Scenario.literal (Scenario.only_maxAttempts 2)))
         (Scenario.mock [Threw (Scenario.Error "rejected")]
            (Returned "fulfilled"))
         Scenario.start
       = Normal (r, h').
Proof.
  assert (Hl : Scenario.heap_with
                 (Scenario.literal (Scenario.only_maxAttempts 2))
                 !! Scenario.options_ref
               = Some (Scenario.literal (Scenario.only_maxAttempts 2)))
    by reflexivity.
  assert (Hmax : 0 <= maxAttempts
                        (props (Scenario.literal (Scenario.only_maxAttempts 2))))
    by (vm_compute; discriminate).
  split; [exact Hl|]. split; [exact Hmax|].
  destruct (handler_settles_four_ways Scenario.options_ref _ _
              (Scenario.mock [Threw (Scenario.Error "rejected")]
                 (Returned "fulfilled"))
              Scenario.start Hl Hmax)
    as (r & h' & Hcall & _).
  now exists r, h'.
Defined.
